(** * Figure and scene management of enthought.mayavi.tools.figure

    A shallow embedding of the module
    [enthought/mayavi/tools/figure.py]: its process-wide set of
    allocated scene numbers, and its five functions [figure], [gcf],
    [clf], [draw] and [savefig], written as state-passing programs that
    may raise a Python exception.  The rendering engine the module
    delegates to is not part of the module; it is a parameter of the
    development. *)

From Stdlib Require Import ZArith QArith String List.
From stdpp Require Import base option list sorting gmap sets strings pretty.

Local Open Scope Z_scope.
Local Open Scope string_scope.
Local Open Scope list_scope.

(** ** Values and objects *)

(** Python exceptions the module can meet.  [EngineError] stands for any
    other exception coming out of the rendering engine. *)
Inductive exn : Type :=
| AttributeError
| ValueError
| EngineError (code : nat).

Inductive outcome (A : Type) : Type :=
| Ok (a : A)
| Raise (e : exn).
Arguments Ok {A} a.
Arguments Raise {A} e.

Global Instance exn_eq_dec : EqDecision exn.
Proof. solve_decision. Defined.

(** Colours are triples of numbers that the module copies and never
    computes with. *)
Definition color : Type := (Q * Q * Q)%type.

(** Simple argument values, for the extra keyword arguments of
    [savefig]. *)
Inductive pyval : Type :=
| PyNone
| PyBool (b : bool)
| PyInt (z : Z)
| PyStr (s : string).

(** The [name] argument of [figure]: absent, of one of the integer
    types listed at lines 56-57, or a string. *)
Inductive name_arg : Type :=
| NameNone
| NameInt (n : Z)
| NameStr (s : string).

(** The object a figure's [scene] attribute points to (the viewer). *)
Record TVTKScene : Type := mkTVTKScene {
  background : color;
  foreground : color;
  disable_render : bool;
  has_isometric_view : bool
}.

(** An object that can be passed as a figure.  A real figure has all
    three attributes; [fig_scene = Some None] is a figure whose scene
    attribute is [None]; [None] in [fig_scene] or [fig_children] is an
    object that lacks the attribute. *)
Record Fig : Type := mkFig {
  fig_name : string;
  fig_scene : option (option TVTKScene);
  fig_children : option (list nat)
}.

Record Engine : Type := mkEngine {
  eng_scenes : list nat;
  eng_current_scene : option nat
}.

Global Instance Fig_inhabited : Inhabited Fig :=
  populate (mkFig "" None None).
Global Instance Engine_inhabited : Inhabited Engine :=
  populate (mkEngine [] None).

(** The engine side of the store: engines and figures, by reference. *)
Record Heap : Type := mkHeap {
  engines : gmap nat Engine;
  figs : gmap nat Fig
}.

(** Calls that leave the module. *)
Inductive Call : Type :=
| call_get_engine
| call_new_scene (engine : nat) (name : string) (size : Z * Z)
| call_isometric_view (fig : nat)
| call_view (azimuth elevation : Z)
| call_render (fig : nat)
| call_save (fig : nat) (filename : string) (size : option (Z * Z))
    (kwargs : list (string * pyval))
| call_gc_collect.

(** [engine_manager.options]. *)
Record Options : Type := mkOptions {
  background_color : color;
  foreground_color : color
}.

(** The whole state: the module's own global (line 23), the engine's
    store, the options, and the calls made so far (oldest first). *)
Record World : Type := mkWorld {
  scene_number_list : gset Z;
  heap : Heap;
  options : Options;
  calls : list Call
}.

(** The initial value of the module's global: [set((0,))]. *)
Definition initial_scene_number_list : gset Z := {[ 0 ]}.

(** What the module does not define: [get_engine], [engine.new_scene],
    and the methods of the viewer and of the figure ([isometric_view],
    [view], [render], [save]).  The first two act on the engine's store
    in a way the module does not know; the others act outside the
    modelled store and can only succeed or raise. *)
Record Externals : Type := mkExternals {
  ext_get_engine : Heap -> outcome nat * Heap;
  ext_new_scene : nat -> string -> Z * Z -> Heap -> outcome unit * Heap;
  ext_method : Call -> Heap -> outcome unit
}.

(** ** The state and exception monad *)

Definition M (A : Type) : Type := World -> outcome A * World.

Definition ret {A} (a : A) : M A := fun w => (Ok a, w).

Definition bind {A B} (m : M A) (k : A -> M B) : M B :=
  fun w =>
    match m w with
    | (Ok a, w') => k a w'
    | (Raise e, w') => (Raise e, w')
    end.

Definition raise {A} (e : exn) : M A := fun w => (Raise e, w).

Declare Scope py_scope.
Delimit Scope py_scope with py.
Notation "x <- m ;; k" := (bind m (fun x => k))
  (at level 100, m at next level, right associativity) : py_scope.
Notation "m ;;; k" := (bind m (fun _ => k))
  (at level 100, right associativity) : py_scope.
Local Open Scope py_scope.

(** [try: m except AttributeError: pass]. *)
Definition try_except_AttributeError (m : M unit) : M unit :=
  fun w =>
    match m w with
    | (Raise AttributeError, w') => (Ok tt, w')
    | r => r
    end.

(** ** State accessors *)

Definition set_numbers (s : gset Z) (w : World) : World :=
  mkWorld s (heap w) (options w) (calls w).
Definition set_heap (h : Heap) (w : World) : World :=
  mkWorld (scene_number_list w) h (options w) (calls w).
Definition log (c : Call) (w : World) : World :=
  mkWorld (scene_number_list w) (heap w) (options w) (calls w ++ [c]).

Definition set_engine (e : nat) (v : Engine) (h : Heap) : Heap :=
  mkHeap (<[e := v]> (engines h)) (figs h).
Definition set_fig (f : nat) (v : Fig) (h : Heap) : Heap :=
  mkHeap (engines h) (<[f := v]> (figs h)).

Definition the_engine (h : Heap) (e : nat) : Engine := engines h !!! e.
Definition the_fig (h : Heap) (f : nat) : Fig := figs h !!! f.

(** [max(s)] of Python: the greatest element, [ValueError] on the empty
    set. *)
Definition max_list (l : list Z) : option Z :=
  match l with
  | [] => None
  | x :: l' => Some (foldr Z.max x l')
  end.
Definition py_max (s : gset Z) : option Z := max_list (elements s).

(** ['Mayavi Scene %d' % n]. *)
Definition scene_name (n : Z) : string := "Mayavi Scene " +:+ pretty n.

Section Figure.

Variable X : Externals.

(** ** Calls that leave the module *)

Definition get_engine : M nat :=
  fun w =>
    let w1 := log call_get_engine w in
    let (r, h) := ext_get_engine X (heap w1) in
    (r, set_heap h w1).

Definition new_scene (engine : nat) (name : string) (size : Z * Z) : M unit :=
  fun w =>
    let w1 := log (call_new_scene engine name size) w in
    let (r, h) := ext_new_scene X engine name size (heap w1) in
    (r, set_heap h w1).

Definition method (c : Call) : M unit :=
  fun w => let w1 := log c w in (ext_method X c (heap w1), w1).

(** [gc.collect()] does not raise. *)
Definition gc_collect : M unit := fun w => (Ok tt, log call_gc_collect w).

(** ** Attribute reads and writes *)

Definition read_current_scene (engine : nat) : M (option nat) :=
  fun w => (Ok (eng_current_scene (the_engine (heap w) engine)), w).

Definition read_scenes (engine : nat) : M (list nat) :=
  fun w => (Ok (eng_scenes (the_engine (heap w) engine)), w).

(** [engine.current_scene = scene]. *)
Definition write_current_scene (engine scene : nat) : M unit :=
  fun w =>
    let en := the_engine (heap w) engine in
    (Ok tt,
     set_heap (set_engine engine (mkEngine (eng_scenes en) (Some scene)) (heap w)) w).

(** [engine.current_scene.name = name]: an [AttributeError] when the
    current scene is [None]. *)
Definition write_current_scene_name (engine : nat) (name : string) : M unit :=
  fun w =>
    match eng_current_scene (the_engine (heap w) engine) with
    | None => (Raise AttributeError, w)
    | Some f =>
        let fg := the_fig (heap w) f in
        (Ok tt,
         set_heap (set_fig f (mkFig name (fig_scene fg) (fig_children fg)) (heap w)) w)
    end.

(** [fig.scene]: an [AttributeError] when the object has no such
    attribute. *)
Definition read_scene (f : nat) : M (option TVTKScene) :=
  fun w =>
    match fig_scene (the_fig (heap w) f) with
    | None => (Raise AttributeError, w)
    | Some s => (Ok s, w)
    end.

(** An attribute write on [fig.scene], an [AttributeError] when
    [fig.scene] is missing or [None]. *)
Definition update_scene (f : nat) (upd : TVTKScene -> TVTKScene) : M unit :=
  fun w =>
    let fg := the_fig (heap w) f in
    match fig_scene fg with
    | Some (Some s) =>
        (Ok tt,
         set_heap (set_fig f (mkFig (fig_name fg) (Some (Some (upd s))) (fig_children fg))
                     (heap w)) w)
    | _ => (Raise AttributeError, w)
    end.

Definition with_background (c : color) (s : TVTKScene) : TVTKScene :=
  mkTVTKScene c (foreground s) (disable_render s) (has_isometric_view s).
Definition with_foreground (c : color) (s : TVTKScene) : TVTKScene :=
  mkTVTKScene (background s) c (disable_render s) (has_isometric_view s).
Definition with_disable_render (b : bool) (s : TVTKScene) : TVTKScene :=
  mkTVTKScene (background s) (foreground s) b (has_isometric_view s).

(** [fig.children[:] = []]: an [AttributeError] when the object has no
    [children]. *)
Definition clear_children (f : nat) : M unit :=
  fun w =>
    let fg := the_fig (heap w) f in
    match fig_children fg with
    | None => (Raise AttributeError, w)
    | Some _ =>
        (Ok tt,
         set_heap (set_fig f (mkFig (fig_name fg) (fig_scene fg) (Some [])) (heap w)) w)
    end.

(** [__scene_number_list.update((n,))]. *)
Definition update_scene_number_list (n : Z) : M unit :=
  fun w => (Ok tt, set_numbers ({[ n ]} ∪ scene_number_list w) w).

(** [max(__scene_number_list)]. *)
Definition max_scene_number : M Z :=
  fun w =>
    match py_max (scene_number_list w) with
    | None => (Raise ValueError, w)
    | Some m => (Ok m, w)
    end.

Definition read_options : M Options := fun w => (Ok (options w), w).

(** ** figure (lines 26-85) *)

(** The loop of lines 63-67: the first scene of [engine.scenes] whose
    name is [name]. *)
Fixpoint find_scene (h : Heap) (name : string) (scenes : list nat) : option nat :=
  match scenes with
  | [] => None
  | scene :: rest =>
      if String.eqb (fig_name (the_fig h scene)) name then Some scene
      else find_scene h name rest
  end.

(** Lines 71-85. *)
Definition setup_scene (engine : nat) (bgcolor fgcolor : option color) : M nat :=
  cur <- read_current_scene engine ;;
  match cur with
  | None => raise AttributeError
  | Some fig =>
      scene <- read_scene fig ;;
      match scene with
      | None => ret fig
      | Some s =>
          opts <- read_options ;;
          update_scene fig
            (with_background (default (background_color opts) bgcolor)) ;;;
          update_scene fig
            (with_foreground (default (foreground_color opts) fgcolor)) ;;;
          (if has_isometric_view s
           then method (call_isometric_view fig)
           else method (call_view 40 50)) ;;;
          ret fig
      end
  end.

Definition default_size : Z * Z := (400, 350).

(** Lines 47-48 and 94-95: [if engine is None: engine = get_engine()]. *)
Definition resolve_engine (engine : option nat) : M nat :=
  match engine with
  | None => get_engine
  | Some e => ret e
  end.

(** Lines 63-70: look the name up among the engine's scenes, make the
    first scene that bears it current and return it; create a scene
    when there is none. *)
Definition find_or_create (engine : nat) (name : string)
    (bgcolor fgcolor : option color) (size : Z * Z) : M nat :=
  scenes <- read_scenes engine ;;
  fun w =>
    match find_scene (heap w) name scenes with
    | Some scene =>
        (write_current_scene engine scene ;;;
         ret scene) w
    | None =>
        (new_scene engine name size ;;;
         write_current_scene_name engine name ;;;
         setup_scene engine bgcolor fgcolor) w
    end.

Definition figure (name : name_arg) (bgcolor fgcolor : option color)
    (engine : option nat) (size : Z * Z) : M nat :=
  engine <- resolve_engine engine ;;
  match name with
  | NameNone =>
      m <- max_scene_number ;;
      let n := m + 1 in
      update_scene_number_list n ;;;
      let name := scene_name n in
      new_scene engine name size ;;;
      write_current_scene_name engine name ;;;
      setup_scene engine bgcolor fgcolor
  | NameInt n =>
      update_scene_number_list n ;;;
      find_or_create engine (scene_name n) bgcolor fgcolor size
  | NameStr s =>
      find_or_create engine s bgcolor fgcolor size
  end.

(** ** gcf (lines 88-99) *)

Definition gcf (engine : option nat) : M nat :=
  engine <- resolve_engine engine ;;
  scene <- read_current_scene engine ;;
  match scene with
  | None => figure NameNone None None (Some engine) default_size
  | Some scene => ret scene
  end.

(** Lines 108-111, 123-124 and 144-145: the figure argument, the
    current figure when it is [None]. *)
Definition resolve_figure (figure : option nat) : M nat :=
  match figure with
  | None => gcf None
  | Some f => ret f
  end.

(** ** clf (lines 102-117) *)

(** The body of the [try] (lines 108-114). *)
Definition clear_sequence (figure : option nat) : M unit :=
  scene <- resolve_figure figure ;;
  update_scene scene (with_disable_render true) ;;;
  clear_children scene ;;;
  update_scene scene (with_disable_render false).

Definition clf (figure : option nat) : M unit :=
  try_except_AttributeError (clear_sequence figure) ;;;
  gc_collect.

(** ** draw (lines 120-125) *)

Definition draw (figure : option nat) : M unit :=
  figure <- resolve_figure figure ;;
  method (call_render figure).

(** ** savefig (lines 128-146) *)

(** [figure.scene.save]: the attribute lookup raises an
    [AttributeError] when [figure.scene] is missing or [None]. *)
Definition savefig (filename : string) (size : option (Z * Z))
    (figure : option nat) (kwargs : list (string * pyval)) : M unit :=
  figure <- resolve_figure figure ;;
  scene <- read_scene figure ;;
  match scene with
  | None => raise AttributeError
  | Some _ => method (call_save figure filename size kwargs)
  end.

End Figure.

(** ** Observations on the module's runs *)

(** The world in which [figure] has made [scene] the current scene of
    [engine]. *)
Definition made_current (engine scene : nat) (w : World) : World :=
  set_heap
    (set_engine engine
       (mkEngine (eng_scenes (the_engine (heap w) engine)) (Some scene))
       (heap w)) w.

(** The name [figure] looks up, when it looks one up (lines 56-60 and
    64). *)
Definition requested_name (name : name_arg) : option string :=
  match name with
  | NameNone => None
  | NameInt n => Some (scene_name n)
  | NameStr s => Some s
  end.

(** The scene [figure] retrieves, if any, from the world [w] in which
    the engine is known. *)
Definition existing_scene (name : name_arg) (engine : nat) (w : World) : option nat :=
  match requested_name name with
  | None => None
  | Some s => find_scene (heap w) s (eng_scenes (the_engine (heap w) engine))
  end.

(** Lines 58-59: an integer name is recorded in the set. *)
Definition noted (name : name_arg) (w : World) : World :=
  match name with
  | NameInt n => set_numbers ({[ n ]} ∪ scene_number_list w) w
  | _ => w
  end.

(** The set after a call of [figure] that got hold of its engine: line
    50-51 add one plus the maximum, lines 58-59 add the integer name. *)
Definition numbers_after_figure (name : name_arg) (s : gset Z) : gset Z :=
  match name with
  | NameNone =>
      match py_max s with
      | Some m => {[ m + 1 ]} ∪ s
      | None => s
      end
  | NameInt n => {[ n ]} ∪ s
  | NameStr _ => s
  end.

(** A program keeps the set when, whatever it returns or raises, the
    set is the same afterwards. *)
Definition keeps_numbers {A} (m : M A) : Prop :=
  forall w, scene_number_list (snd (m w)) = scene_number_list w.

(** The four functions that do not create figures themselves. *)
Inductive api_call : Type :=
| Gcf (engine : option nat)
| Clf (figure : option nat)
| Draw (figure : option nat)
| Savefig (filename : string) (size : option (Z * Z)) (figure : option nat)
    (kwargs : list (string * pyval)).

(** The engine argument with which a call reaches [gcf], when it does:
    [gcf] itself, and the three others when no figure is given. *)
Definition gcf_argument (c : api_call) : option (option nat) :=
  match c with
  | Gcf engine => Some engine
  | Clf None | Draw None | Savefig _ _ None _ => Some None
  | Clf (Some _) | Draw (Some _) | Savefig _ _ (Some _) _ => None
  end.

(** The arguments of one call of [figure]. *)
Record figure_args : Type := mkArgs {
  arg_name : name_arg;
  arg_bgcolor : option color;
  arg_fgcolor : option color;
  arg_engine : option nat;
  arg_size : Z * Z
}.

(** The name a call asks the engine to create a scene under, if it is
    such a call, and the names asked for in a list of calls. *)
Definition new_scene_name (c : Call) : option string :=
  match c with
  | call_new_scene _ name _ => Some name
  | _ => None
  end.

Definition new_scene_names (l : list Call) : list string := omap new_scene_name l.

(** The calls made between the state [w] and the later state [w']. *)
Definition new_calls (w w' : World) : list Call :=
  drop (length (calls w)) (calls w').

(** A program is quiet when it never asks the engine for a scene. *)
Definition quiet {A} (m : M A) : Prop :=
  forall w, exists l,
    calls (snd (m w)) = calls w ++ l /\ new_scene_names l = [].

Section Observations.

Variable X : Externals.

(** The state a call leaves behind. *)
Definition after (c : api_call) (w : World) : World :=
  match c with
  | Gcf engine => snd (gcf X engine w)
  | Clf figure => snd (clf X figure w)
  | Draw figure => snd (draw X figure w)
  | Savefig filename size figure kwargs =>
      snd (savefig X filename size figure kwargs w)
  end.

(** Whether the call ends up in [figure]: it goes through [gcf], the
    engine is obtained, and that engine has no current scene. *)
Definition reaches_figure (c : api_call) (w : World) : bool :=
  match gcf_argument c with
  | None => false
  | Some engine =>
      match resolve_engine X engine w with
      | (Ok e, w0) =>
          match eng_current_scene (the_engine (heap w0) e) with
          | None => true
          | Some _ => false
          end
      | (Raise _, _) => false
      end
  end.

Definition call_figure (a : figure_args) : M nat :=
  figure X (arg_name a) (arg_bgcolor a) (arg_fgcolor a) (arg_engine a) (arg_size a).

(** A sequence of calls of [figure], each from the state the one before
    left, whether it returned or raised.  For every call without a name
    that returns: one plus the maximum of the set of scene numbers when
    the call was made, and the name of the figure it returned. *)
Fixpoint auto_scenes (cs : list figure_args) (w : World) : list (Z * string) :=
  match cs with
  | [] => []
  | a :: cs' =>
      let (r, w') := call_figure a w in
      match arg_name a, r with
      | NameNone, Ok fig =>
          (default 0 (py_max (scene_number_list w)) + 1,
           fig_name (the_fig (heap w') fig))
            :: auto_scenes cs' w'
      | _, _ => auto_scenes cs' w'
      end
  end.

(** The state a sequence of calls of [figure] ends in. *)
Fixpoint run_figures (cs : list figure_args) (w : World) : World :=
  match cs with
  | [] => w
  | a :: cs' => run_figures cs' (snd (call_figure a w))
  end.

(** Along such a sequence, for every call without a name, returning or
    not: the names it asked the engine to create a scene under. *)
Fixpoint auto_requests (cs : list figure_args) (w : World) : list string :=
  match cs with
  | [] => []
  | a :: cs' =>
      let w' := snd (call_figure a w) in
      match arg_name a with
      | NameNone => new_scene_names (new_calls w w') ++ auto_requests cs' w'
      | _ => auto_requests cs' w'
      end
  end.

(** Along such a sequence, for every call without a name that gets hold
    of its engine while the set has a maximum (line 50 is reached and
    does not raise): one plus the maximum of the set at that time. *)
Fixpoint auto_numbers (cs : list figure_args) (w : World) : list Z :=
  match cs with
  | [] => []
  | a :: cs' =>
      let w' := snd (call_figure a w) in
      match arg_name a, fst (resolve_engine X (arg_engine a) w),
            py_max (scene_number_list w) with
      | NameNone, Ok _, Some m => (m + 1) :: auto_numbers cs' w'
      | _, _, _ => auto_numbers cs' w'
      end
  end.

End Observations.

(** ** A reference engine *)

(** Modelled from the spec: the external engine's scene creation and
    current-scene accessor, which the module only calls.  [new_scene]
    allocates a figure with a viewer attached and no children, appends
    it to the engine's scenes and makes it current; [get_engine]
    returns engine [0]; the other methods succeed. *)
Definition blank_viewer : TVTKScene :=
  mkTVTKScene (0%Q, 0%Q, 0%Q) (1%Q, 1%Q, 1%Q) false true.

Definition ref_new_scene (engine : nat) (name : string) (size : Z * Z)
    (h : Heap) : outcome unit * Heap :=
  let f := fresh (dom (figs h)) in
  let en := the_engine h engine in
  (Ok tt,
   set_fig f (mkFig name (Some (Some blank_viewer)) (Some []))
     (set_engine engine (mkEngine (eng_scenes en ++ [f]) (Some f)) h)).

Definition ref_engine : Externals :=
  mkExternals (fun h => (Ok 0%nat, h)) ref_new_scene (fun _ _ => Ok tt).

Definition default_options : Options :=
  mkOptions (1 # 2, 1 # 2, 1 # 2)%Q (1%Q, 1%Q, 1%Q).

Definition initial_world : World :=
  mkWorld initial_scene_number_list (mkHeap ∅ ∅) default_options [].

(** A state to run the module on: one engine with three scenes, the
    first of them current.  Figure [2] has no viewer ([scene] is
    [None]); object [3], which the engine does not know, has a viewer
    but no [children] attribute. *)
Definition white : color := (1%Q, 1%Q, 1%Q).

Definition gallery : World :=
  mkWorld initial_scene_number_list
    (mkHeap
       {[ 0%nat := mkEngine [0%nat; 1%nat; 2%nat] (Some 0%nat) ]}
       (<[ 0%nat := mkFig "a" (Some (Some blank_viewer)) (Some [7%nat; 8%nat]) ]>
        (<[ 1%nat := mkFig "Mayavi Scene 3" (Some (Some blank_viewer)) (Some []) ]>
         (<[ 2%nat := mkFig "headless" (Some None) (Some []) ]>
          (<[ 3%nat := mkFig "odd" (Some (Some blank_viewer)) None ]> ∅)))))
    default_options [].

(** A sequence of calls to run the module on: no name, the integer 7,
    and no name again. *)
Definition sample_session : list figure_args :=
  [mkArgs NameNone None None None default_size;
   mkArgs (NameInt 7) None None None default_size;
   mkArgs NameNone None None None default_size].

(** ** Further observations *)

(** A program is monotone when, whatever it returns or raises, it leaves
    the options alone, removes no scene number, and only adds to the
    calls made. *)
Definition monotone {A} (m : M A) : Prop :=
  forall w,
    options (snd (m w)) = options w /\
    scene_number_list w ⊆ scene_number_list (snd (m w)) /\
    exists l, calls (snd (m w)) = calls w ++ l.

(** Any call of one of the five functions of the module. *)
Inductive module_call : Type :=
| CallFigure (a : figure_args)
| CallApi (c : api_call).

Definition state_after (X : Externals) (c : module_call) (w : World) : World :=
  match c with
  | CallFigure a => snd (call_figure X a w)
  | CallApi c => after X c w
  end.

(** The states the module can be in: the module starts with the set
    [{0}], whatever the engine's store, and goes from call to call. *)
Inductive reachable (X : Externals) : World -> Prop :=
| reachable_initial h o :
    reachable X (mkWorld initial_scene_number_list h o [])
| reachable_step c w :
    reachable X w -> reachable X (state_after X c w).

(** An engine whose [new_scene] returns without creating anything. *)
Definition idle_engine : Externals :=
  mkExternals (fun h => (Ok 0%nat, h)) (fun _ _ _ h => (Ok tt, h)) (fun _ _ => Ok tt).

(** A program is blind to the set of scene numbers when it does the
    same, and leaves the set as it finds it, whatever the set is. *)
Definition numbers_blind {A} (m : M A) : Prop :=
  forall s w, m (set_numbers s w) = (fst (m w), set_numbers s (snd (m w))).

(** The store after lines 112-114 ran on the object [f] as far as they
    got: children emptied and rendering enabled for a figure with a
    viewer and children; rendering left disabled for an object with a
    viewer and no [children]; nothing for an object without viewer. *)
Definition cleared (f : nat) (h : Heap) : Heap :=
  let fg := the_fig h f in
  match fig_scene fg, fig_children fg with
  | Some (Some s), Some _ =>
      set_fig f (mkFig (fig_name fg) (Some (Some (with_disable_render false s)))
                   (Some [])) h
  | Some (Some s), None =>
      set_fig f (mkFig (fig_name fg) (Some (Some (with_disable_render true s)))
                   None) h
  | _, _ => h
  end.

(** An engine manager that cannot start its engine: [get_engine]
    raises. *)
Definition failing_engine : Externals :=
  mkExternals (fun h => (Raise (EngineError 1), h)) ref_new_scene (fun _ _ => Ok tt).

(** ** Basic facts about the monad and the store *)

Lemma bind_Ok_inv {A B} (m : M A) (k : A -> M B) w b w' :
  bind m k w = (Ok b, w') ->
  exists a w1, m w = (Ok a, w1) /\ k a w1 = (Ok b, w').
Proof.
  unfold bind. destruct (m w) as [[a|e] w1]; intros H.
  - exists a, w1. split; [reflexivity | exact H].
  - discriminate H.
Qed.

Lemma bind_Ok {A B} (m : M A) (k : A -> M B) w a w1 :
  m w = (Ok a, w1) -> bind m k w = k a w1.
Proof. unfold bind. intros ->. reflexivity. Qed.

Lemma bind_Raise {A B} (m : M A) (k : A -> M B) w e w1 :
  m w = (Raise e, w1) -> bind m k w = (Raise e, w1).
Proof. unfold bind. intros ->. reflexivity. Qed.

Lemma the_fig_set_fig_eq f v h : the_fig (set_fig f v h) f = v.
Proof. unfold the_fig, set_fig. simpl. apply lookup_total_insert_eq. Qed.

Lemma the_fig_set_fig_ne f g v h : f <> g -> the_fig (set_fig f v h) g = the_fig h g.
Proof. intros Hne. unfold the_fig, set_fig. simpl. by apply lookup_total_insert_ne. Qed.

Lemma the_engine_set_engine_eq e v h : the_engine (set_engine e v h) e = v.
Proof. unfold the_engine, set_engine. simpl. apply lookup_total_insert_eq. Qed.

Lemma the_engine_set_fig f v h e : the_engine (set_fig f v h) e = the_engine h e.
Proof. reflexivity. Qed.

Lemma the_fig_set_engine e v h f : the_fig (set_engine e v h) f = the_fig h f.
Proof. reflexivity. Qed.

(** ** Lines 71-85: the viewer set-up that ends a creation *)

Section SetupScene.

Variable X : Externals.

(** What the set-up leaves alone, and what it returns. *)
Lemma setup_scene_Ok engine bgcolor fgcolor w fig w' :
  setup_scene X engine bgcolor fgcolor w = (Ok fig, w') ->
  eng_current_scene (the_engine (heap w) engine) = Some fig /\
  engines (heap w') = engines (heap w) /\
  scene_number_list w' = scene_number_list w /\
  options w' = options w /\
  fig_name (the_fig (heap w') fig) = fig_name (the_fig (heap w) fig) /\
  (exists tl, calls w' = calls w ++ tl) /\
  (forall s, fig_scene (the_fig (heap w') fig) = Some (Some s) ->
     background s = default (background_color (options w)) bgcolor /\
     foreground s = default (foreground_color (options w)) fgcolor).
Proof.
  unfold setup_scene. intros H.
  apply bind_Ok_inv in H as (cur & w1 & Hcur & H).
  unfold read_current_scene in Hcur. injection Hcur as <- <-.
  destruct (eng_current_scene (the_engine (heap w) engine)) as [f|] eqn:Ecur;
    [| discriminate H].
  apply bind_Ok_inv in H as (sc & w1 & Hsc & H).
  unfold read_scene in Hsc.
  destruct (fig_scene (the_fig (heap w) f)) as [osc|] eqn:Esc; [| discriminate Hsc].
  injection Hsc as <- <-.
  destruct osc as [s0|].
  - apply bind_Ok_inv in H as (opts & w1 & Hopts & H).
    unfold read_options in Hopts. injection Hopts as <- <-.
    apply bind_Ok_inv in H as ([] & w1 & Hbg & H).
    unfold update_scene in Hbg. rewrite Esc in Hbg. injection Hbg as <-.
    apply bind_Ok_inv in H as ([] & w2 & Hfg & H).
    unfold update_scene in Hfg. simpl in Hfg.
    rewrite the_fig_set_fig_eq in Hfg. simpl in Hfg. injection Hfg as <-.
    apply bind_Ok_inv in H as ([] & w3 & Hm & H).
    unfold ret in H. injection H as <- <-.
    assert (w3 = log (if has_isometric_view s0 then call_isometric_view f
                      else call_view 40 50)
                   (set_heap
                      (set_fig f
                         (mkFig (fig_name (the_fig (heap w) f))
                            (Some (Some (with_foreground
                               (default (foreground_color (options w)) fgcolor)
                               (with_background
                                  (default (background_color (options w)) bgcolor) s0))))
                            (fig_children (the_fig (heap w) f)))
                         (set_fig f
                            (mkFig (fig_name (the_fig (heap w) f))
                               (Some (Some (with_background
                                  (default (background_color (options w)) bgcolor) s0)))
                               (fig_children (the_fig (heap w) f)))
                            (heap w))) w)) as ->.
    { destruct (has_isometric_view s0); unfold method in Hm;
        injection Hm as _ <-; reflexivity. }
    simpl. repeat split; try reflexivity.
    { rewrite the_fig_set_fig_eq. reflexivity. }
    { eexists. reflexivity. }
    all: rewrite the_fig_set_fig_eq in H; simpl in H; injection H as <-;
      reflexivity.
  - unfold ret in H. injection H as <- <-.
    repeat split; try reflexivity.
    { exists []. by rewrite app_nil_r. }
    all: rewrite Esc in H; discriminate H.
Qed.

(** Lines 53-54 and 69-70 followed by the set-up: the scene the engine
    made current is named, set up and returned. *)
Lemma create_Ok engine name size bgcolor fgcolor w fig w' :
  (new_scene X engine name size ;;;
   write_current_scene_name engine name ;;;
   setup_scene X engine bgcolor fgcolor) w = (Ok fig, w') ->
  eng_current_scene (the_engine (heap w') engine) = Some fig /\
  fig_name (the_fig (heap w') fig) = name /\
  scene_number_list w' = scene_number_list w /\
  (exists tl, calls w' = calls w ++ call_new_scene engine name size :: tl) /\
  (forall s, fig_scene (the_fig (heap w') fig) = Some (Some s) ->
     background s = default (background_color (options w)) bgcolor /\
     foreground s = default (foreground_color (options w)) fgcolor).
Proof.
  intros H.
  apply bind_Ok_inv in H as ([] & w1 & Hnew & H).
  apply bind_Ok_inv in H as ([] & w2 & Hname & H).
  apply setup_scene_Ok in H as (Hcur & Heng & Hnum & Hopt & Hnm & [tl Hcalls] & Hcol).
  assert (scene_number_list w1 = scene_number_list w /\ options w1 = options w /\
          calls w1 = calls w ++ [call_new_scene engine name size])
    as (Hnum1 & Hopt1 & Hcalls1).
  { unfold new_scene in Hnew.
    destruct (ext_new_scene X engine name size
                (heap (log (call_new_scene engine name size) w))) as [r h].
    injection Hnew as _ <-. repeat split; reflexivity. }
  unfold write_current_scene_name in Hname.
  destruct (eng_current_scene (the_engine (heap w1) engine)) as [g|] eqn:Eg;
    [| discriminate Hname].
  injection Hname as <-. simpl in *.
  rewrite the_engine_set_fig, Eg in Hcur. injection Hcur as ->.
  rewrite the_fig_set_fig_eq in Hnm. simpl in Hnm.
  repeat split.
  - unfold the_engine in *. rewrite Heng. exact Eg.
  - exact Hnm.
  - congruence.
  - exists tl. rewrite Hcalls, Hcalls1, <- app_assoc. reflexivity.
  - apply Hcol in H. rewrite <- Hopt1. apply H.
  - apply Hcol in H. rewrite <- Hopt1. apply H.
Qed.

End SetupScene.

(** ** The look-up of lines 63-67 *)

Lemma find_scene_Some h name scenes scene :
  find_scene h name scenes = Some scene ->
  exists before after,
    scenes = before ++ scene :: after /\
    fig_name (the_fig h scene) = name /\
    Forall (fun g => fig_name (the_fig h g) <> name) before.
Proof.
  induction scenes as [|g rest IH]; simpl; [discriminate |].
  destruct (String.eqb (fig_name (the_fig h g)) name) eqn:E.
  - intros [= ->]. exists [], rest. apply String.eqb_eq in E. auto.
  - intros H. apply IH in H as (before & after & -> & Hname & Hbefore).
    exists (g :: before), after. apply String.eqb_neq in E. auto.
Qed.

Lemma find_scene_first h name before scene after :
  fig_name (the_fig h scene) = name ->
  Forall (fun g => fig_name (the_fig h g) <> name) before ->
  find_scene h name (before ++ scene :: after) = Some scene.
Proof.
  intros Hname. induction 1 as [|g before Hg _ IH]; simpl.
  - apply String.eqb_eq in Hname. rewrite Hname. reflexivity.
  - apply String.eqb_neq in Hg. rewrite Hg. exact IH.
Qed.

Lemma find_scene_None h name scenes :
  find_scene h name scenes = None <->
  Forall (fun g => fig_name (the_fig h g) <> name) scenes.
Proof.
  induction scenes as [|g rest IH]; simpl.
  - split; auto.
  - destruct (String.eqb (fig_name (the_fig h g)) name) eqn:E.
    + apply String.eqb_eq in E. split; [discriminate |].
      intros H. apply Forall_cons in H as [H _]. contradiction.
    + apply String.eqb_neq in E. rewrite IH. split.
      * intros H. by apply Forall_cons.
      * intros H. by apply Forall_cons in H as [_ H].
Qed.

Section FigureFacts.

Variable X : Externals.

Lemma find_or_create_Ok engine name bgcolor fgcolor size w fig w' :
  find_or_create X engine name bgcolor fgcolor size w = (Ok fig, w') ->
  eng_current_scene (the_engine (heap w') engine) = Some fig /\
  fig_name (the_fig (heap w') fig) = name /\
  scene_number_list w' = scene_number_list w /\
  match find_scene (heap w) name (eng_scenes (the_engine (heap w) engine)) with
  | Some scene => fig = scene /\ w' = made_current engine scene w
  | None =>
      forall s, fig_scene (the_fig (heap w') fig) = Some (Some s) ->
        background s = default (background_color (options w)) bgcolor /\
        foreground s = default (foreground_color (options w)) fgcolor
  end.
Proof.
  unfold find_or_create. intros H.
  apply bind_Ok_inv in H as (scenes & w1 & Hsc & H).
  unfold read_scenes in Hsc. injection Hsc as <- <-.
  destruct (find_scene (heap w) name (eng_scenes (the_engine (heap w) engine)))
    as [scene|] eqn:Efind.
  - apply bind_Ok_inv in H as ([] & w1 & Hcur & H).
    unfold write_current_scene in Hcur. injection Hcur as <-.
    unfold ret in H. injection H as <- <-.
    apply find_scene_Some in Efind as (before & after & _ & Hname & _).
    repeat split; try reflexivity.
    + simpl. rewrite the_engine_set_engine_eq. reflexivity.
    + simpl. rewrite the_fig_set_engine. exact Hname.
  - apply create_Ok in H as (Hcur & Hname & Hnum & _ & Hcol). auto.
Qed.

Lemma resolve_engine_frame engine w e w0 :
  resolve_engine X engine w = (Ok e, w0) ->
  scene_number_list w0 = scene_number_list w /\ options w0 = options w.
Proof.
  destruct engine as [e'|]; simpl.
  - unfold ret. intros [= <- <-]. auto.
  - unfold get_engine.
    destruct (ext_get_engine X (heap (log call_get_engine w))) as [r h].
    intros [= -> <-]. auto.
Qed.

Lemma resolve_engine_Some e w : resolve_engine X (Some e) w = (Ok e, w).
Proof. reflexivity. Qed.

Lemma figure_explicit_name name bgcolor fgcolor engine size w e w0 s :
  resolve_engine X engine w = (Ok e, w0) ->
  requested_name name = Some s ->
  figure X name bgcolor fgcolor engine size w =
  find_or_create X e s bgcolor fgcolor size (noted name w0).
Proof.
  intros He Hs. unfold figure. rewrite (bind_Ok _ _ _ _ _ He).
  destruct name as [|n|s']; simpl in Hs; simplify_eq; reflexivity.
Qed.

Lemma figure_auto_name bgcolor fgcolor engine size w e w0 :
  resolve_engine X engine w = (Ok e, w0) ->
  figure X NameNone bgcolor fgcolor engine size w =
  match py_max (scene_number_list w0) with
  | None => (Raise ValueError, w0)
  | Some m =>
      (new_scene X e (scene_name (m + 1)) size ;;;
       write_current_scene_name e (scene_name (m + 1)) ;;;
       setup_scene X e bgcolor fgcolor)
        (set_numbers ({[ m + 1 ]} ∪ scene_number_list w0) w0)
  end.
Proof.
  intros He. unfold figure. rewrite (bind_Ok _ _ _ _ _ He).
  unfold bind at 1, max_scene_number.
  destruct (py_max (scene_number_list w0)); reflexivity.
Qed.

End FigureFacts.

Section FigureTheorems.

Variable X : Externals.

(** C10.  Whenever [figure] returns, on the auto-name path, on the
    retrieval path and on the creation path alike, it has got hold of
    an engine, and the figure it returns is the current scene of that
    engine in the state it returns in. *)
Theorem figure_returns_current_scene name bgcolor fgcolor engine size w fig w' :
  figure X name bgcolor fgcolor engine size w = (Ok fig, w') ->
  exists e w0,
    resolve_engine X engine w = (Ok e, w0) /\
    eng_current_scene (the_engine (heap w') e) = Some fig.
Proof.
  intros H.
  destruct (resolve_engine X engine w) as [[e|ex] w0] eqn:He.
  - exists e, w0. split; [reflexivity |].
    destruct (requested_name name) as [s|] eqn:Es.
    + rewrite (figure_explicit_name X _ _ _ _ _ _ _ _ _ He Es) in H.
      by apply find_or_create_Ok in H as (Hcur & _).
    + destruct name; try discriminate Es.
      rewrite (figure_auto_name X _ _ _ _ _ _ _ He) in H.
      destruct (py_max (scene_number_list w0)) as [m|]; [| discriminate H].
      by apply create_Ok in H as (Hcur & _).
  - unfold figure in H. rewrite (bind_Raise _ _ _ _ _ He) in H. discriminate H.
Qed.

(** C2.  When the name asked for (a string, or an integer [n] turned
    into ['Mayavi Scene n']) is borne by a scene of the engine, [figure]
    makes the first such scene the current one and returns it; nothing
    else changes except that an integer name is recorded, and no call
    leaves the module, so [engine.new_scene] is not called. *)
Theorem figure_retrieves_existing_scene
    name s bgcolor fgcolor engine size w e w0 before scene after :
  requested_name name = Some s ->
  resolve_engine X engine w = (Ok e, w0) ->
  eng_scenes (the_engine (heap w0) e) = before ++ scene :: after ->
  fig_name (the_fig (heap w0) scene) = s ->
  Forall (fun g => fig_name (the_fig (heap w0) g) <> s) before ->
  let w' := made_current e scene (noted name w0) in
  figure X name bgcolor fgcolor engine size w = (Ok scene, w') /\
  eng_current_scene (the_engine (heap w') e) = Some scene /\
  calls w' = calls w0.
Proof.
  intros Hs He Hscenes Hname Hbefore w'.
  assert (Hheap : heap (noted name w0) = heap w0) by (destruct name; reflexivity).
  repeat split.
  - rewrite (figure_explicit_name X _ _ _ _ _ _ _ _ _ He Hs).
    unfold find_or_create. unfold bind at 1, read_scenes.
    rewrite Hheap, Hscenes, (find_scene_first _ _ _ _ _ Hname Hbefore).
    unfold bind, write_current_scene, ret, w', made_current.
    rewrite Hheap, Hscenes. reflexivity.
  - unfold w', made_current. simpl. by rewrite the_engine_set_engine_eq.
  - unfold w'. destruct name; reflexivity.
Qed.

(** C3, as the code has it.  When [figure] creates the scene it returns
    (no name given, or no scene of the engine bears the name) and the
    returned figure has a viewer attached, the viewer's background is
    the [bgcolor] argument, or [options.background_color] when it is
    [None], and likewise for the foreground.  When [figure] retrieves
    an existing scene it returns it as it is: no figure is modified. *)
Theorem figure_colors name bgcolor fgcolor engine size w e w0 fig w' :
  resolve_engine X engine w = (Ok e, w0) ->
  figure X name bgcolor fgcolor engine size w = (Ok fig, w') ->
  match existing_scene name e w0 with
  | None =>
      forall s, fig_scene (the_fig (heap w') fig) = Some (Some s) ->
        background s = default (background_color (options w)) bgcolor /\
        foreground s = default (foreground_color (options w)) fgcolor
  | Some scene => fig = scene /\ figs (heap w') = figs (heap w0)
  end.
Proof.
  intros He H. destruct (resolve_engine_frame X _ _ _ _ He) as [_ Hopt].
  unfold existing_scene. destruct (requested_name name) as [nm|] eqn:Es.
  - rewrite (figure_explicit_name X _ _ _ _ _ _ _ _ _ He Es) in H.
    apply find_or_create_Ok in H as (_ & _ & _ & H).
    assert (Hheap : heap (noted name w0) = heap w0) by (destruct name; reflexivity).
    assert (Hopts : options (noted name w0) = options w0) by (destruct name; reflexivity).
    rewrite Hheap, Hopts, Hopt in H.
    destruct (find_scene (heap w0) nm (eng_scenes (the_engine (heap w0) e))).
    + destruct H as [-> ->]. split; [reflexivity |].
      unfold made_current. simpl. by rewrite Hheap.
    + exact H.
  - destruct name; try discriminate Es.
    rewrite (figure_auto_name X _ _ _ _ _ _ _ He) in H.
    destruct (py_max (scene_number_list w0)) as [m|]; [| discriminate H].
    apply create_Ok in H as (_ & _ & _ & _ & H). simpl in H.
    rewrite Hopt in H. exact H.
Qed.

End FigureTheorems.

(** ** Who writes the set of scene numbers *)

Create HintDb frame.

Lemma keeps_ret {A} (a : A) : keeps_numbers (ret a).
Proof. intros w. reflexivity. Qed.

Lemma keeps_raise {A} e : keeps_numbers (@raise A e).
Proof. intros w. reflexivity. Qed.

Lemma keeps_bind {A B} (m : M A) (k : A -> M B) :
  keeps_numbers m -> (forall a, keeps_numbers (k a)) -> keeps_numbers (bind m k).
Proof.
  intros Hm Hk w. unfold bind. specialize (Hm w).
  destruct (m w) as [[a|e] w1]; simpl in *.
  - rewrite Hk. exact Hm.
  - exact Hm.
Qed.

Lemma keeps_try m : keeps_numbers m -> keeps_numbers (try_except_AttributeError m).
Proof.
  intros Hm w. unfold try_except_AttributeError. specialize (Hm w).
  destruct (m w) as [[a|[]] w1]; exact Hm.
Qed.

Lemma keeps_match_option {A B} (o : option A) (m : M B) (k : A -> M B) :
  keeps_numbers m -> (forall a, keeps_numbers (k a)) ->
  keeps_numbers (match o with None => m | Some a => k a end).
Proof. destruct o; auto. Qed.

Lemma keeps_if {A} (b : bool) (m1 m2 : M A) :
  keeps_numbers m1 -> keeps_numbers m2 -> keeps_numbers (if b then m1 else m2).
Proof. destruct b; auto. Qed.

#[export] Hint Resolve keeps_ret keeps_raise keeps_bind keeps_try
  keeps_match_option keeps_if : frame.

Section Frame.

Variable X : Externals.

Lemma keeps_get_engine : keeps_numbers (get_engine X).
Proof.
  intros w. unfold get_engine.
  destruct (ext_get_engine X (heap (log call_get_engine w))). reflexivity.
Qed.

Lemma keeps_new_scene engine name size : keeps_numbers (new_scene X engine name size).
Proof.
  intros w. unfold new_scene.
  destruct (ext_new_scene X engine name size
              (heap (log (call_new_scene engine name size) w))).
  reflexivity.
Qed.

Lemma keeps_method c : keeps_numbers (method X c).
Proof. intros w. reflexivity. Qed.

Lemma keeps_gc_collect : keeps_numbers gc_collect.
Proof. intros w. reflexivity. Qed.

Lemma keeps_read_current_scene engine : keeps_numbers (read_current_scene engine).
Proof. intros w. reflexivity. Qed.

Lemma keeps_read_scenes engine : keeps_numbers (read_scenes engine).
Proof. intros w. reflexivity. Qed.

Lemma keeps_read_options : keeps_numbers read_options.
Proof. intros w. reflexivity. Qed.

Lemma keeps_write_current_scene engine scene :
  keeps_numbers (write_current_scene engine scene).
Proof. intros w. reflexivity. Qed.

Lemma keeps_write_current_scene_name engine name :
  keeps_numbers (write_current_scene_name engine name).
Proof.
  intros w. unfold write_current_scene_name.
  destruct (eng_current_scene (the_engine (heap w) engine)); reflexivity.
Qed.

Lemma keeps_read_scene f : keeps_numbers (read_scene f).
Proof.
  intros w. unfold read_scene. destruct (fig_scene (the_fig (heap w) f)); reflexivity.
Qed.

Lemma keeps_update_scene f upd : keeps_numbers (update_scene f upd).
Proof.
  intros w. unfold update_scene.
  destruct (fig_scene (the_fig (heap w) f)) as [[s|]|]; reflexivity.
Qed.

Lemma keeps_clear_children f : keeps_numbers (clear_children f).
Proof.
  intros w. unfold clear_children.
  destruct (fig_children (the_fig (heap w) f)); reflexivity.
Qed.

Hint Resolve keeps_get_engine keeps_new_scene keeps_method keeps_gc_collect
  keeps_read_current_scene keeps_read_scenes keeps_read_options
  keeps_write_current_scene keeps_write_current_scene_name keeps_read_scene
  keeps_update_scene keeps_clear_children : frame.

Lemma keeps_resolve_engine engine : keeps_numbers (resolve_engine X engine).
Proof. unfold resolve_engine. auto with frame. Qed.

Lemma keeps_setup_scene engine bgcolor fgcolor :
  keeps_numbers (setup_scene X engine bgcolor fgcolor).
Proof. unfold setup_scene. auto 10 with frame. Qed.

Hint Resolve keeps_resolve_engine keeps_setup_scene : frame.

Lemma keeps_create engine name size bgcolor fgcolor :
  keeps_numbers (new_scene X engine name size ;;;
                 write_current_scene_name engine name ;;;
                 setup_scene X engine bgcolor fgcolor).
Proof. auto with frame. Qed.

Lemma keeps_find_or_create engine name bgcolor fgcolor size :
  keeps_numbers (find_or_create X engine name bgcolor fgcolor size).
Proof.
  unfold find_or_create. apply keeps_bind; [auto with frame |].
  intros scenes w.
  destruct (find_scene (heap w) name scenes).
  - reflexivity.
  - apply keeps_create.
Qed.

Lemma figure_numbers name bgcolor fgcolor engine size w :
  scene_number_list (snd (figure X name bgcolor fgcolor engine size w)) =
  match fst (resolve_engine X engine w) with
  | Ok _ => numbers_after_figure name (scene_number_list w)
  | Raise _ => scene_number_list w
  end.
Proof.
  pose proof (keeps_resolve_engine engine w) as Hres.
  destruct (resolve_engine X engine w) as [[e|ex] w0] eqn:He; simpl in *.
  - destruct name as [|n|s]; simpl.
    + rewrite (figure_auto_name X _ _ _ _ _ _ _ He), Hres.
      destruct (py_max (scene_number_list w)) as [m|]; simpl; [| exact Hres].
      rewrite keeps_create. reflexivity.
    + rewrite (figure_explicit_name X (NameInt n) _ _ _ _ _ _ _ _ He eq_refl).
      rewrite keeps_find_or_create. simpl. by rewrite Hres.
    + rewrite (figure_explicit_name X (NameStr s) _ _ _ _ _ _ _ _ He eq_refl).
      rewrite keeps_find_or_create. simpl. exact Hres.
  - unfold figure. rewrite (bind_Raise _ _ _ _ _ He). exact Hres.
Qed.

End Frame.

(** ** What is asked of the engine *)

Section Requests.

Variable X : Externals.

Lemma new_scene_names_app l1 l2 :
  new_scene_names (l1 ++ l2) = new_scene_names l1 ++ new_scene_names l2.
Proof. apply omap_app. Qed.

Lemma quiet_silent {A} (m : M A) :
  (forall w, calls (snd (m w)) = calls w) -> quiet m.
Proof. intros H w. exists []. by rewrite app_nil_r. Qed.

Lemma quiet_bind {A B} (m : M A) (k : A -> M B) :
  quiet m -> (forall a, quiet (k a)) -> quiet (bind m k).
Proof.
  intros Hm Hk w. unfold bind. destruct (Hm w) as (l & Hl & Hn).
  destruct (m w) as [[a|e] w1]; simpl in *.
  - destruct (Hk a w1) as (l' & Hl' & Hn').
    exists (l ++ l'). split.
    + rewrite Hl', Hl, app_assoc. reflexivity.
    + by rewrite new_scene_names_app, Hn, Hn'.
  - by exists l.
Qed.

Lemma quiet_resolve_engine engine : quiet (resolve_engine X engine).
Proof.
  destruct engine as [e|]; simpl.
  - by apply quiet_silent.
  - intros w. unfold get_engine.
    destruct (ext_get_engine X (heap (log call_get_engine w))).
    by exists [call_get_engine].
Qed.

Lemma quiet_method c : new_scene_name c = None -> quiet (method X c).
Proof.
  intros Hc w. exists [c]. split; [reflexivity |].
  unfold new_scene_names. simpl. by rewrite Hc.
Qed.

Lemma quiet_update_scene f upd : quiet (update_scene f upd).
Proof.
  apply quiet_silent. intros w. unfold update_scene.
  destruct (fig_scene (the_fig (heap w) f)) as [[s|]|]; reflexivity.
Qed.

Lemma quiet_setup_scene engine bgcolor fgcolor :
  quiet (setup_scene X engine bgcolor fgcolor).
Proof.
  unfold setup_scene.
  apply quiet_bind; [by apply quiet_silent |].
  intros [fig|]; [| by apply quiet_silent].
  apply quiet_bind.
  { apply quiet_silent. intros w. unfold read_scene.
    destruct (fig_scene (the_fig (heap w) fig)); reflexivity. }
  intros [s|]; [| by apply quiet_silent].
  apply quiet_bind; [by apply quiet_silent | intros opts].
  apply quiet_bind; [apply quiet_update_scene | intros _].
  apply quiet_bind; [apply quiet_update_scene | intros _].
  apply quiet_bind; [| intros _; by apply quiet_silent].
  destruct (has_isometric_view s); by apply quiet_method.
Qed.

Lemma quiet_name_and_setup engine name bgcolor fgcolor :
  quiet (write_current_scene_name engine name ;;;
         setup_scene X engine bgcolor fgcolor).
Proof.
  apply quiet_bind; [| intros _; apply quiet_setup_scene].
  apply quiet_silent. intros w. unfold write_current_scene_name.
  destruct (eng_current_scene (the_engine (heap w) engine)); reflexivity.
Qed.

(** Lines 53-54 and 71-85 ask the engine for exactly one scene, under
    the name given, whatever happens afterwards. *)
Lemma create_requests engine name size bgcolor fgcolor w :
  exists tl,
    calls (snd ((new_scene X engine name size ;;;
                 write_current_scene_name engine name ;;;
                 setup_scene X engine bgcolor fgcolor) w)) =
    calls w ++ call_new_scene engine name size :: tl /\
    new_scene_names tl = [].
Proof.
  unfold bind at 1.
  assert (Hnew : calls (snd (new_scene X engine name size w)) =
                 calls w ++ [call_new_scene engine name size]).
  { unfold new_scene.
    destruct (ext_new_scene X engine name size
                (heap (log (call_new_scene engine name size) w))).
    reflexivity. }
  destruct (new_scene X engine name size w) as [[[]|ex] w1]; simpl in Hnew.
  - destruct (quiet_name_and_setup engine name bgcolor fgcolor w1)
      as (l & Hl & Hn).
    exists l. split; [| exact Hn].
    rewrite Hl, Hnew, <- app_assoc. reflexivity.
  - exists []. split; [exact Hnew | reflexivity].
Qed.

End Requests.

(** ** gcf *)

Section Gcf.

Variable X : Externals.

Lemma gcf_unfold engine w e w0 :
  resolve_engine X engine w = (Ok e, w0) ->
  gcf X engine w =
  match eng_current_scene (the_engine (heap w0) e) with
  | Some scene => (Ok scene, w0)
  | None => figure X NameNone None None (Some e) default_size w0
  end.
Proof.
  intros He. unfold gcf. rewrite (bind_Ok _ _ _ _ _ He).
  unfold bind, read_current_scene.
  destruct (eng_current_scene (the_engine (heap w0) e)); reflexivity.
Qed.

(** When the engine makes a scene current and the viewer's method does
    not raise, the creation of lines 53-54 and 71-85 returns that
    scene. *)
Lemma create_succeeds engine name size bgcolor fgcolor w w2 fig viewer :
  new_scene X engine name size w = (Ok tt, w2) ->
  eng_current_scene (the_engine (heap w2) engine) = Some fig ->
  fig_scene (the_fig (heap w2) fig) = Some viewer ->
  (forall c h, ext_method X c h = Ok tt) ->
  exists w',
    (new_scene X engine name size ;;;
     write_current_scene_name engine name ;;;
     setup_scene X engine bgcolor fgcolor) w = (Ok fig, w').
Proof.
  intros Hnew Hcur Hviewer Hmethod.
  rewrite (bind_Ok _ _ _ _ _ Hnew).
  unfold bind at 1, write_current_scene_name. rewrite Hcur.
  unfold setup_scene, bind at 1, read_current_scene. simpl.
  rewrite the_engine_set_fig, Hcur.
  unfold bind at 1, read_scene. simpl. rewrite the_fig_set_fig_eq. simpl.
  rewrite Hviewer. destruct viewer as [s|]; [| by eexists].
  unfold bind at 1, read_options.
  unfold bind at 1, update_scene. simpl. rewrite the_fig_set_fig_eq. simpl.
  unfold bind at 1, update_scene. simpl. rewrite the_fig_set_fig_eq. simpl.
  unfold bind, ret. destruct (has_isometric_view s); unfold method;
    rewrite Hmethod; by eexists.
Qed.

(** C8.  Once the engine is known ([w0] is [w] itself when the engine is
    given), [gcf] returns the engine's current scene and changes nothing
    when there is one.  When there is none it is the call
    [figure(engine=engine)]: whatever happens then, the next automatic
    number is recorded and the engine is asked for the scene of that
    name, with the default size; when the engine makes a scene current
    (and the viewer's method does not raise) [gcf] returns that scene,
    bearing the automatic name, as the engine's current scene; and
    whenever [gcf] returns, what it returns is such a scene. *)
Theorem gcf_fetches_or_creates engine w e w0 :
  resolve_engine X engine w = (Ok e, w0) ->
  match eng_current_scene (the_engine (heap w0) e) with
  | Some scene => gcf X engine w = (Ok scene, w0)
  | None =>
      gcf X engine w = figure X NameNone None None (Some e) default_size w0 /\
      (forall fig w', gcf X engine w = (Ok fig, w') ->
        exists m tl,
          py_max (scene_number_list w0) = Some m /\
          calls w' = calls w0 ++ call_new_scene e (scene_name (m + 1)) default_size :: tl /\
          fig_name (the_fig (heap w') fig) = scene_name (m + 1) /\
          eng_current_scene (the_engine (heap w') e) = Some fig) /\
      (forall m, py_max (scene_number_list w0) = Some m ->
        scene_number_list (snd (gcf X engine w)) =
          {[ m + 1 ]} ∪ scene_number_list w0 /\
        (exists tl,
           calls (snd (gcf X engine w)) =
           calls w0 ++ call_new_scene e (scene_name (m + 1)) default_size :: tl) /\
        forall w2 fig viewer,
          new_scene X e (scene_name (m + 1)) default_size
            (set_numbers ({[ m + 1 ]} ∪ scene_number_list w0) w0) = (Ok tt, w2) ->
          eng_current_scene (the_engine (heap w2) e) = Some fig ->
          fig_scene (the_fig (heap w2) fig) = Some viewer ->
          (forall c h, ext_method X c h = Ok tt) ->
          exists w',
            gcf X engine w = (Ok fig, w') /\
            fig_name (the_fig (heap w') fig) = scene_name (m + 1) /\
            eng_current_scene (the_engine (heap w') e) = Some fig)
  end.
Proof.
  intros He. rewrite (gcf_unfold _ _ _ _ He).
  destruct (eng_current_scene (the_engine (heap w0) e)) as [scene|]; [reflexivity |].
  split; [reflexivity |]. split.
  - intros fig w' H.
    rewrite (figure_auto_name X _ _ _ _ _ _ _ (resolve_engine_Some X e w0)) in H.
    destruct (py_max (scene_number_list w0)) as [m|]; [| discriminate H].
    apply create_Ok in H as (Hcur & Hname & _ & [tl Hcalls] & _).
    exists m, tl. auto.
  - intros m Hmax.
    rewrite (figure_auto_name X _ _ _ _ _ _ _ (resolve_engine_Some X e w0)), Hmax.
    split; [| split].
    + by rewrite keeps_create.
    + destruct (create_requests X e (scene_name (m + 1)) default_size None None
                  (set_numbers ({[ m + 1 ]} ∪ scene_number_list w0) w0))
        as (tl & Htl & _).
      exists tl. exact Htl.
    + intros w2 fig viewer Hnew Hcur Hviewer Hmethod.
      destruct (create_succeeds e (scene_name (m + 1)) default_size None None
                  _ w2 fig viewer Hnew Hcur Hviewer Hmethod) as [w' Hw'].
      exists w'. split; [exact Hw' |].
      apply create_Ok in Hw' as (Hcur' & Hname & _). auto.
Qed.

Lemma gcf_numbers engine w :
  scene_number_list (snd (gcf X engine w)) =
  match resolve_engine X engine w with
  | (Ok e, w0) =>
      match eng_current_scene (the_engine (heap w0) e) with
      | Some _ => scene_number_list w
      | None => numbers_after_figure NameNone (scene_number_list w)
      end
  | (Raise _, _) => scene_number_list w
  end.
Proof.
  pose proof (keeps_resolve_engine X engine w) as Hres.
  destruct (resolve_engine X engine w) as [[e|ex] w0] eqn:He; simpl in Hres.
  - rewrite (gcf_unfold _ _ _ _ He).
    destruct (eng_current_scene (the_engine (heap w0) e)); [exact Hres |].
    rewrite figure_numbers. simpl. by rewrite Hres.
  - unfold gcf. rewrite (bind_Raise _ _ _ _ _ He). exact Hres.
Qed.

End Gcf.

(** ** clf *)

Section Clf.

Variable X : Externals.

(** The three ways through the clear sequence for a given object. *)
Lemma clear_sequence_no_scene f w :
  (forall s, fig_scene (the_fig (heap w) f) <> Some (Some s)) ->
  clear_sequence X (Some f) w = (Raise AttributeError, w).
Proof.
  intros Hs. unfold clear_sequence, resolve_figure, bind, ret, update_scene.
  destruct (fig_scene (the_fig (heap w) f)) as [[s|]|]; try reflexivity.
  by destruct (Hs s).
Qed.

Lemma clear_sequence_no_children f w s :
  fig_scene (the_fig (heap w) f) = Some (Some s) ->
  fig_children (the_fig (heap w) f) = None ->
  clear_sequence X (Some f) w =
  (Raise AttributeError,
   set_heap
     (set_fig f
        (mkFig (fig_name (the_fig (heap w) f))
           (Some (Some (with_disable_render true s))) None)
        (heap w)) w).
Proof.
  intros Hs Hc. unfold clear_sequence, resolve_figure, bind, ret, update_scene.
  rewrite Hs, Hc. unfold clear_children. simpl.
  rewrite the_fig_set_fig_eq. reflexivity.
Qed.

Lemma clear_sequence_complete f w s l :
  fig_scene (the_fig (heap w) f) = Some (Some s) ->
  fig_children (the_fig (heap w) f) = Some l ->
  exists h,
    clear_sequence X (Some f) w = (Ok tt, set_heap h w) /\
    the_fig h f =
      mkFig (fig_name (the_fig (heap w) f))
        (Some (Some (with_disable_render false s))) (Some []).
Proof.
  intros Hs Hc. unfold clear_sequence, resolve_figure, bind, ret, update_scene.
  rewrite Hs, Hc. unfold clear_children. simpl.
  rewrite the_fig_set_fig_eq. simpl. rewrite the_fig_set_fig_eq. simpl.
  eexists. split; [reflexivity |]. by rewrite the_fig_set_fig_eq.
Qed.

Lemma clf_unfold figure w :
  clf X figure w =
  match clear_sequence X figure w with
  | (Ok _, w1) | (Raise AttributeError, w1) => (Ok tt, log call_gc_collect w1)
  | (Raise e, w1) => (Raise e, w1)
  end.
Proof.
  unfold clf, bind, try_except_AttributeError, gc_collect.
  destruct (clear_sequence X figure w) as [[[]|[]] w1]; reflexivity.
Qed.

(** C4.  A figure with a viewer attached and a list of children has no
    children left after [clf(figure=f)], which returns normally. *)
Theorem clf_leaves_figure_empty f w s l :
  fig_scene (the_fig (heap w) f) = Some (Some s) ->
  fig_children (the_fig (heap w) f) = Some l ->
  exists w',
    clf X (Some f) w = (Ok tt, w') /\
    fig_children (the_fig (heap w') f) = Some [].
Proof.
  intros Hs Hc.
  destruct (clear_sequence_complete f w s l Hs Hc) as (h & Hseq & Hf).
  rewrite clf_unfold, Hseq. eexists. split; [reflexivity |].
  simpl. by rewrite Hf.
Qed.

(** When the clear sequence runs to its end, rendering is disabled only
    for its duration: for a figure with a viewer attached and a list of
    children, whose viewer has [disable_render] False before the call,
    [clf] returns normally and leaves the viewer as it was, with
    [disable_render] False. *)
Theorem clf_restores_rendering f w s l :
  fig_scene (the_fig (heap w) f) = Some (Some s) ->
  fig_children (the_fig (heap w) f) = Some l ->
  disable_render s = false ->
  exists w',
    clf X (Some f) w = (Ok tt, w') /\
    fig_scene (the_fig (heap w') f) = Some (Some s).
Proof.
  intros Hs Hc Hr.
  destruct (clear_sequence_complete f w s l Hs Hc) as (h & Hseq & Hf).
  rewrite clf_unfold, Hseq. eexists. split; [reflexivity |].
  simpl. rewrite Hf. simpl. destruct s as [bg fg dr iso]. simpl in Hr.
  by rewrite Hr.
Qed.

(** C6.  An [AttributeError] raised inside the clear sequence, whatever
    the argument, is swallowed: [clf] then goes on to [gc.collect()]
    and returns normally.  So [clf] never raises an [AttributeError],
    and with a figure given, whatever attributes it has or lacks, it
    always returns normally. *)
Theorem clf_swallows_AttributeError figure w :
  (forall w1, clear_sequence X figure w = (Raise AttributeError, w1) ->
     clf X figure w = (Ok tt, log call_gc_collect w1)) /\
  fst (clf X figure w) <> Raise AttributeError /\
  (forall f, figure = Some f -> fst (clf X figure w) = Ok tt).
Proof.
  repeat split.
  - intros w1 H. by rewrite clf_unfold, H.
  - rewrite clf_unfold.
    destruct (clear_sequence X figure w) as [[[]|[]] w1]; discriminate.
  - intros f ->. rewrite clf_unfold.
    destruct (fig_scene (the_fig (heap w) f)) as [[s|]|] eqn:Hs.
    + destruct (fig_children (the_fig (heap w) f)) as [l|] eqn:Hc.
      * destruct (clear_sequence_complete f w s l Hs Hc) as (h & -> & _).
        reflexivity.
      * by rewrite (clear_sequence_no_children f w s Hs Hc).
    + rewrite clear_sequence_no_scene; [reflexivity |]. intros s. by rewrite Hs.
    + rewrite clear_sequence_no_scene; [reflexivity |]. intros s. by rewrite Hs.
Qed.

End Clf.

(** ** savefig *)

Section Savefig.

Variable X : Externals.

(** C9, as the code has it.  Once the figure is known (the argument, or
    the current figure through [gcf] when it is [None]) and has a viewer
    attached, [savefig] makes exactly one call after that, to the save
    routine of that figure's viewer, with the filename, the size and
    the extra keyword arguments it was given; it returns or raises what
    that routine does and never looks at the filename itself. *)
Theorem savefig_delegates_to_save filename size figure kwargs w f w0 s :
  resolve_figure X figure w = (Ok f, w0) ->
  fig_scene (the_fig (heap w0) f) = Some (Some s) ->
  savefig X filename size figure kwargs w =
    (ext_method X (call_save f filename size kwargs) (heap w0),
     log (call_save f filename size kwargs) w0) /\
  calls (snd (savefig X filename size figure kwargs w)) =
    calls w0 ++ [call_save f filename size kwargs].
Proof.
  intros Hf Hs.
  assert (savefig X filename size figure kwargs w =
          (ext_method X (call_save f filename size kwargs) (heap w0),
           log (call_save f filename size kwargs) w0)) as ->.
  { unfold savefig. rewrite (bind_Ok _ _ _ _ _ Hf).
    unfold bind, read_scene. rewrite Hs. reflexivity. }
  split; reflexivity.
Qed.

(** Without a viewer the attribute look-up fails before any call. *)
Lemma savefig_no_scene filename size figure kwargs w f w0 :
  resolve_figure X figure w = (Ok f, w0) ->
  (forall s, fig_scene (the_fig (heap w0) f) <> Some (Some s)) ->
  savefig X filename size figure kwargs w = (Raise AttributeError, w0).
Proof.
  intros Hf Hs. unfold savefig. rewrite (bind_Ok _ _ _ _ _ Hf).
  unfold bind, read_scene.
  destruct (fig_scene (the_fig (heap w0) f)) as [[s|]|]; try reflexivity.
  by destruct (Hs s).
Qed.

End Savefig.

(** ** The four functions that do not create figures themselves *)

Section Api.

Variable X : Externals.

Lemma numbers_bind_tail {A B} (m : M A) (k : A -> M B) w :
  (forall a, keeps_numbers (k a)) ->
  scene_number_list (snd (bind m k w)) = scene_number_list (snd (m w)).
Proof.
  intros Hk. unfold bind. destruct (m w) as [[a|e] w1]; simpl.
  - apply Hk.
  - reflexivity.
Qed.

Lemma numbers_try m w :
  scene_number_list (snd (try_except_AttributeError m w)) =
  scene_number_list (snd (m w)).
Proof.
  unfold try_except_AttributeError. destruct (m w) as [[a|[]] w1]; reflexivity.
Qed.

Lemma resolve_figure_numbers figure w :
  scene_number_list (snd (resolve_figure X figure w)) =
  match figure with
  | Some _ => scene_number_list w
  | None => scene_number_list (snd (gcf X None w))
  end.
Proof. destruct figure; reflexivity. Qed.

Lemma clf_numbers figure w :
  scene_number_list (snd (clf X figure w)) =
  scene_number_list (snd (resolve_figure X figure w)).
Proof.
  unfold clf. rewrite numbers_bind_tail by (intros; apply keeps_gc_collect).
  rewrite numbers_try. unfold clear_sequence.
  apply numbers_bind_tail. intros f.
  apply keeps_bind; [apply keeps_update_scene | intros _].
  apply keeps_bind; [apply keeps_clear_children | intros _].
  apply keeps_update_scene.
Qed.

Lemma draw_numbers figure w :
  scene_number_list (snd (draw X figure w)) =
  scene_number_list (snd (resolve_figure X figure w)).
Proof.
  unfold draw. apply numbers_bind_tail. intros f. apply keeps_method.
Qed.

Lemma savefig_numbers filename size figure kwargs w :
  scene_number_list (snd (savefig X filename size figure kwargs w)) =
  scene_number_list (snd (resolve_figure X figure w)).
Proof.
  unfold savefig. apply numbers_bind_tail. intros f.
  apply keeps_bind; [apply keeps_read_scene |].
  intros [s|]; [apply keeps_method | apply keeps_raise].
Qed.

(** C7, as the code has it.  [gcf], [clf], [draw] and [savefig] never
    write the set of scene numbers themselves.  After any of them the
    set is what it was, unless the call ends up in [figure] (through
    [gcf], on an engine without current scene): then the set is the one
    [figure] leaves, the old set with one plus its maximum added. *)
Theorem only_figure_writes_scene_numbers c w :
  scene_number_list (after X c w) =
  if reaches_figure X c w
  then numbers_after_figure NameNone (scene_number_list w)
  else scene_number_list w.
Proof.
  assert (Hgcf : forall engine,
    scene_number_list (snd (gcf X engine w)) =
    if reaches_figure X (Gcf engine) w
    then numbers_after_figure NameNone (scene_number_list w)
    else scene_number_list w).
  { intros engine. rewrite gcf_numbers. unfold reaches_figure. simpl.
    destruct (resolve_engine X engine w) as [[e|ex] w0]; [| reflexivity].
    destruct (eng_current_scene (the_engine (heap w0) e)); reflexivity. }
  destruct c as [engine|figure|figure|filename size figure kwargs]; simpl.
  - apply Hgcf.
  - rewrite clf_numbers, resolve_figure_numbers.
    destruct figure; [reflexivity | apply Hgcf].
  - rewrite draw_numbers, resolve_figure_numbers.
    destruct figure; [reflexivity | apply Hgcf].
  - rewrite savefig_numbers, resolve_figure_numbers.
    destruct figure; [reflexivity | apply Hgcf].
Qed.

End Api.

(** ** The automatic names *)

Lemma foldr_max_spec (l : list Z) (x : Z) :
  (foldr Z.max x l = x \/ foldr Z.max x l ∈ l) /\
  x <= foldr Z.max x l /\
  (forall y, y ∈ l -> y <= foldr Z.max x l).
Proof.
  induction l as [|a l (Hin & Hx & Hl)]; simpl.
  - repeat split; [by left | lia |]. intros y Hy. by apply elem_of_nil in Hy.
  - repeat split.
    + destruct (Z.max_spec a (foldr Z.max x l)) as [[_ ->]|[_ ->]].
      * destruct Hin as [->|Hin]; [by left |]. right. by apply elem_of_cons; right.
      * right. by apply elem_of_cons; left.
    + lia.
    + intros y Hy. apply elem_of_cons in Hy as [->|Hy]; [lia |].
      specialize (Hl y Hy). lia.
Qed.

Lemma py_max_Some (s : gset Z) (m : Z) :
  py_max s = Some m -> m ∈ s /\ forall x, x ∈ s -> x <= m.
Proof.
  unfold py_max, max_list. intros H.
  destruct (elements s) as [|x l] eqn:El; [discriminate H |].
  injection H as <-.
  destruct (foldr_max_spec l x) as (Hin & Hx & Hl).
  split.
  - apply elem_of_elements. rewrite El.
    destruct Hin as [->|Hin]; apply elem_of_cons; auto.
  - intros y Hy. apply elem_of_elements in Hy. rewrite El in Hy.
    apply elem_of_cons in Hy as [->|Hy]; auto.
Qed.

Lemma py_max_nonempty (s : gset Z) (x : Z) : x ∈ s -> is_Some (py_max s).
Proof.
  intros Hx. apply elem_of_elements in Hx. unfold py_max, max_list.
  destruct (elements s); [by apply elem_of_nil in Hx | eauto].
Qed.

Lemma scene_name_inj n1 n2 : scene_name n1 = scene_name n2 -> n1 = n2.
Proof.
  unfold scene_name. intros H. apply (inj (String.app _)) in H.
  by apply (inj pretty) in H.
Qed.

Lemma scene_name_inj' : Inj (=) (=) scene_name.
Proof. intros n1 n2. apply scene_name_inj. Qed.

Section AutoNames.

Variable X : Externals.

Lemma figure_auto_Ok bgcolor fgcolor engine size w fig w' :
  figure X NameNone bgcolor fgcolor engine size w = (Ok fig, w') ->
  exists m,
    py_max (scene_number_list w) = Some m /\
    scene_number_list w' = {[ m + 1 ]} ∪ scene_number_list w /\
    fig_name (the_fig (heap w') fig) = scene_name (m + 1).
Proof.
  intros H.
  destruct (resolve_engine X engine w) as [[e|ex] w0] eqn:He.
  - destruct (resolve_engine_frame X _ _ _ _ He) as [Hnum _].
    rewrite (figure_auto_name X _ _ _ _ _ _ _ He), Hnum in H.
    destruct (py_max (scene_number_list w)) as [m|]; [| discriminate H].
    apply create_Ok in H as (_ & Hname & Hnum' & _).
    exists m. auto.
  - unfold figure in H. rewrite (bind_Raise _ _ _ _ _ He) in H. discriminate H.
Qed.

Lemma figure_numbers_grow name bgcolor fgcolor engine size w :
  scene_number_list w ⊆
  scene_number_list (snd (figure X name bgcolor fgcolor engine size w)).
Proof.
  rewrite figure_numbers. destruct (fst (resolve_engine X engine w)); [| done].
  destruct name as [|n|s]; simpl; [| set_solver | done].
  destruct (py_max (scene_number_list w)); [set_solver | done].
Qed.

(** What one call without a name asks of the engine. *)
Lemma figure_auto_requests bgcolor fgcolor engine size w :
  new_scene_names
    (new_calls w (snd (figure X NameNone bgcolor fgcolor engine size w))) =
  match fst (resolve_engine X engine w), py_max (scene_number_list w) with
  | Ok _, Some m => [scene_name (m + 1)]
  | _, _ => []
  end.
Proof.
  destruct (quiet_resolve_engine X engine w) as (l0 & Hl0 & Hn0).
  destruct (resolve_engine X engine w) as [[e|ex] w0] eqn:He; simpl in *.
  - destruct (resolve_engine_frame X _ _ _ _ He) as [Hnum _].
    rewrite (figure_auto_name X _ _ _ _ _ _ _ He), Hnum.
    destruct (py_max (scene_number_list w)) as [m|].
    + destruct (create_requests X e (scene_name (m + 1)) size bgcolor fgcolor
                  (set_numbers ({[ m + 1 ]} ∪ scene_number_list w) w0))
        as (tl & Htl & Hn).
      unfold new_calls. rewrite Htl. cbn [calls set_numbers].
      rewrite Hl0, <- app_assoc, drop_app_length.
      rewrite new_scene_names_app, Hn0. simpl.
      change (new_scene_names (call_new_scene e (scene_name (m + 1)) size :: tl))
        with (scene_name (m + 1) :: new_scene_names tl).
      by rewrite Hn.
    + unfold new_calls. simpl. by rewrite Hl0, drop_app_length.
  - unfold figure. rewrite (bind_Raise _ _ _ _ _ He). simpl.
    unfold new_calls. by rewrite Hl0, drop_app_length.
Qed.

Lemma auto_requests_numbers cs w :
  auto_requests X cs w = map scene_name (auto_numbers X cs w).
Proof.
  revert w. induction cs as [|a cs IH]; intros w; simpl; [reflexivity |].
  rewrite IH. destruct (arg_name a) eqn:Ename; try reflexivity.
  unfold call_figure. rewrite Ename, figure_auto_requests.
  destruct (fst (resolve_engine X (arg_engine a) w)); [| reflexivity].
  destruct (py_max (scene_number_list w)); reflexivity.
Qed.

Lemma run_figures_grow cs w :
  scene_number_list w ⊆ scene_number_list (run_figures X cs w).
Proof.
  revert w. induction cs as [|a cs IH]; intros w; simpl; [done |].
  etrans; [| apply IH]. apply figure_numbers_grow.
Qed.

Lemma auto_numbers_recorded cs w :
  Forall (fun n => n ∈ scene_number_list (run_figures X cs w))
    (auto_numbers X cs w).
Proof.
  revert w. induction cs as [|a cs IH]; intros w; simpl; [constructor |].
  destruct (arg_name a) eqn:Ename; try apply IH.
  destruct (fst (resolve_engine X (arg_engine a) w)) eqn:He; [| apply IH].
  destruct (py_max (scene_number_list w)) as [m|] eqn:Hmax; [| apply IH].
  constructor; [| apply IH].
  apply run_figures_grow. unfold call_figure.
  rewrite Ename, figure_numbers, He. simpl. rewrite Hmax.
  apply elem_of_union_l. by apply elem_of_singleton.
Qed.

Lemma auto_numbers_invariant cs w :
  StronglySorted Z.lt (auto_numbers X cs w) /\
  Forall (fun n => forall x, x ∈ scene_number_list w -> x < n)
    (auto_numbers X cs w).
Proof.
  revert w. induction cs as [|a cs IH]; intros w; simpl.
  - split; constructor.
  - pose proof (figure_numbers_grow (arg_name a) (arg_bgcolor a) (arg_fgcolor a)
                  (arg_engine a) (arg_size a) w) as Hgrow.
    fold (call_figure X a) in Hgrow.
    destruct (IH (snd (call_figure X a w))) as (Hsorted & Hbound).
    assert (Hkeep :
      Forall (fun n => forall x, x ∈ scene_number_list w -> x < n)
        (auto_numbers X cs (snd (call_figure X a w)))).
    { eapply Forall_impl; [exact Hbound |]. intros n Hn x Hx. apply Hn.
      by apply Hgrow. }
    destruct (arg_name a) eqn:Ename; [| by auto | by auto].
    destruct (fst (resolve_engine X (arg_engine a) w)) eqn:He; [| by auto].
    destruct (py_max (scene_number_list w)) as [m|] eqn:Hmax; [| by auto].
    apply py_max_Some in Hmax as Hub. destruct Hub as [_ Hub].
    split.
    + constructor; [exact Hsorted |].
      eapply Forall_impl; [exact Hbound |]. intros n Hn. apply Hn.
      unfold call_figure. rewrite Ename, figure_numbers, He. simpl. rewrite Hmax.
      apply elem_of_union_l. by apply elem_of_singleton.
    + constructor; [| exact Hkeep].
      intros x Hx. specialize (Hub x Hx). lia.
Qed.

Lemma auto_scenes_invariant cs w :
  Forall (fun p => snd p = scene_name (fst p)) (auto_scenes X cs w) /\
  StronglySorted Z.lt (map fst (auto_scenes X cs w)) /\
  Forall (fun n => forall x, x ∈ scene_number_list w -> x < n)
    (map fst (auto_scenes X cs w)).
Proof.
  revert w. induction cs as [|a cs IH]; intros w; simpl.
  - repeat split; constructor.
  - pose proof (figure_numbers_grow (arg_name a) (arg_bgcolor a) (arg_fgcolor a)
                  (arg_engine a) (arg_size a) w) as Hgrow.
    fold (call_figure X a) in Hgrow.
    destruct (call_figure X a w) as [r w'] eqn:Hcall. simpl in Hgrow.
    destruct (IH w') as (Hnames & Hsorted & Hbound).
    assert (Hkeep :
      Forall (fun n => forall x, x ∈ scene_number_list w -> x < n)
        (map fst (auto_scenes X cs w'))).
    { eapply Forall_impl; [exact Hbound |]. intros n Hn x Hx. apply Hn.
      by apply Hgrow. }
    destruct (arg_name a) eqn:Ename; [| by auto | by auto].
    destruct r as [fig|ex]; [| by auto].
    unfold call_figure in Hcall. rewrite Ename in Hcall.
    apply figure_auto_Ok in Hcall as (m & Hmax & Hnum & Hname).
    rewrite Hmax. simpl.
    apply py_max_Some in Hmax as [_ Hmax].
    repeat split.
    + constructor; [exact Hname | exact Hnames].
    + constructor; [exact Hsorted |].
      eapply Forall_impl; [exact Hbound |]. intros n Hn. apply Hn.
      rewrite Hnum. apply elem_of_union_l. by apply elem_of_singleton.
    + constructor; [| exact Hkeep].
      intros x Hx. specialize (Hmax x Hx). lia.
Qed.

(** C1.  Along any sequence of calls of [figure], with names, integers
    or nothing, in any order, and whether the calls return or raise:
    each call without a name that reaches line 50 (it has its engine,
    and the set has a maximum) takes the number one plus the maximum of
    the set at that time, asks the engine for the scene
    ['Mayavi Scene n'] under that number and for no other, and records
    the number in the set, where it stays.  These numbers are strictly
    increasing along the sequence, so they and the names asked for are
    pairwise distinct.  The figures such calls return bear these names:
    each has the name of one plus the maximum at the time of its call,
    and their numbers increase and their names differ as well. *)
Theorem auto_names_unique_and_increasing cs w :
  auto_requests X cs w = map scene_name (auto_numbers X cs w) /\
  Forall (fun n => n ∈ scene_number_list (run_figures X cs w))
    (auto_numbers X cs w) /\
  StronglySorted Z.lt (auto_numbers X cs w) /\
  NoDup (auto_numbers X cs w) /\
  NoDup (auto_requests X cs w) /\
  Forall (fun p => snd p = scene_name (fst p)) (auto_scenes X cs w) /\
  StronglySorted Z.lt (map fst (auto_scenes X cs w)) /\
  NoDup (map fst (auto_scenes X cs w)) /\
  NoDup (map snd (auto_scenes X cs w)).
Proof.
  assert (Hsorted_nodup : forall l, StronglySorted Z.lt l -> NoDup l).
  { intros l Hl. induction Hl as [|n l _ IH Hn]; constructor; [| exact IH].
    intros Hin. eapply Forall_forall in Hn; [| exact Hin]. lia. }
  destruct (auto_numbers_invariant cs w) as (Hnsorted & _).
  split; [apply auto_requests_numbers |].
  split; [apply auto_numbers_recorded |].
  split; [exact Hnsorted |].
  split; [by apply Hsorted_nodup |].
  split.
  { rewrite auto_requests_numbers.
    apply (NoDup_fmap_2 (Inj0 := scene_name_inj') scene_name).
    by apply Hsorted_nodup. }
  destruct (auto_scenes_invariant cs w) as (Hnames & Hsorted & _).
  assert (Hnodup : NoDup (map fst (auto_scenes X cs w))) by by apply Hsorted_nodup.
  repeat split; try assumption.
  clear Hsorted. induction Hnames as [|[n s] l Hs Htl IH]; simpl in *.
  - constructor.
  - apply NoDup_cons in Hnodup as [Hn Hl]. constructor; [| by apply IH].
    intros Hin. apply Hn. subst s.
    apply list_elem_of_In, in_map_iff in Hin as ([n' s'] & Hs' & Hin).
    simpl in Hs'.
    apply list_elem_of_In, in_map_iff. exists (n', s'). split; [| exact Hin].
    simpl. symmetry. apply scene_name_inj.
    pose proof (proj1 (List.Forall_forall _ _) Htl _ Hin) as Hq.
    simpl in Hq. congruence.
Qed.

End AutoNames.

(** ** The module at work on the sample state *)

(** Three automatic names with an integer name and a string name in
    between, from the initial state of the module. *)
Example auto_scenes_sample :
  auto_scenes ref_engine
    [mkArgs NameNone None None None default_size;
     mkArgs (NameInt 7) None None None default_size;
     mkArgs NameNone None None None default_size;
     mkArgs (NameStr "Mayavi Scene 10") None None None default_size;
     mkArgs NameNone None None None default_size]
    initial_world =
  [(1, "Mayavi Scene 1"); (8, "Mayavi Scene 8"); (9, "Mayavi Scene 9")].
Proof. vm_compute. reflexivity. Qed.

(** On an engine that never makes a scene current every call of the
    sample sequence raises, and still the two calls without a name took
    the numbers 1 and 8 and asked for the scenes of these names. *)
Lemma auto_names_unique_and_increasing_witness :
  auto_scenes idle_engine sample_session initial_world = [] /\
  auto_numbers idle_engine sample_session initial_world = [1; 8] /\
  auto_requests idle_engine sample_session initial_world
    = ["Mayavi Scene 1"; "Mayavi Scene 8"] /\
  StronglySorted Z.lt [1; 8] /\
  auto_numbers ref_engine sample_session initial_world = [1; 8] /\
  map snd (auto_scenes ref_engine sample_session initial_world)
    = ["Mayavi Scene 1"; "Mayavi Scene 8"].
Proof.
  assert (E : auto_numbers idle_engine sample_session initial_world = [1; 8])
    by (vm_compute; reflexivity).
  destruct (auto_names_unique_and_increasing idle_engine sample_session
              initial_world) as (Hreq & _ & Hsorted & _).
  rewrite E in Hreq, Hsorted.
  split; [vm_compute; reflexivity |].
  split; [exact E |].
  split; [exact Hreq |].
  split; [exact Hsorted |].
  split; vm_compute; reflexivity.
Defined.

Lemma figure_returns_current_scene_witness :
  exists e w0,
    resolve_engine ref_engine None gallery = (Ok e, w0) /\
    eng_current_scene
      (the_engine
         (heap (snd (figure ref_engine NameNone None None None default_size gallery)))
         e) = Some 4%nat.
Proof.
  apply (figure_returns_current_scene ref_engine NameNone None None None
           default_size gallery 4%nat).
  vm_compute. reflexivity.
Defined.

Lemma figure_retrieves_existing_scene_witness :
  fst (figure ref_engine (NameInt 3) None None (Some 0%nat) default_size gallery)
  = Ok 1%nat.
Proof.
  destruct (figure_retrieves_existing_scene ref_engine (NameInt 3)
              "Mayavi Scene 3" None None (Some 0%nat) default_size gallery
              0%nat gallery [0%nat] 1%nat [2%nat]) as [H _].
  - vm_compute. reflexivity.
  - reflexivity.
  - vm_compute. reflexivity.
  - vm_compute. reflexivity.
  - constructor; [| constructor]. vm_compute. discriminate.
  - rewrite H. reflexivity.
Defined.

Lemma figure_colors_witness :
  fst (figure ref_engine (NameStr "b") (Some white) None (Some 0%nat)
         default_size gallery) = Ok 4%nat /\
  background (mkTVTKScene white (foreground_color default_options) false true)
    = white /\
  foreground (mkTVTKScene white (foreground_color default_options) false true)
    = foreground_color default_options.
Proof.
  split; [vm_compute; reflexivity |].
  pose proof (figure_colors ref_engine (NameStr "b") (Some white) None (Some 0%nat)
                default_size gallery 0%nat gallery 4%nat
                (snd (figure ref_engine (NameStr "b") (Some white) None (Some 0%nat)
                        default_size gallery))
                eq_refl eq_refl) as H.
  change (existing_scene (NameStr "b") 0%nat gallery) with (@None nat) in H.
  apply H. vm_compute. reflexivity.
Defined.

(** C3 fails on the retrieval path: the scene named ["a"] exists, with
    a viewer attached, and [figure] called with a white background
    returns it with the black background it had. *)
Lemma figure_colors_counterexample :
  figure ref_engine (NameStr "a") (Some white) None (Some 0%nat) default_size
    gallery = (Ok 0%nat, made_current 0%nat 0%nat gallery) /\
  fig_scene (the_fig (heap (made_current 0%nat 0%nat gallery)) 0%nat)
    = Some (Some blank_viewer) /\
  background blank_viewer <> default (background_color (options gallery)) (Some white).
Proof.
  split; [vm_compute; reflexivity |].
  split; [vm_compute; reflexivity |].
  discriminate.
Qed.

Lemma gcf_fetches_or_creates_witness :
  gcf ref_engine (Some 0%nat) gallery = (Ok 0%nat, gallery) /\
  exists w',
    gcf ref_engine (Some 0%nat) initial_world = (Ok 0%nat, w') /\
    fig_name (the_fig (heap w') 0%nat) = scene_name (0 + 1) /\
    eng_current_scene (the_engine (heap w') 0%nat) = Some 0%nat.
Proof.
  split.
  - exact (gcf_fetches_or_creates ref_engine (Some 0%nat) gallery 0%nat gallery
             eq_refl).
  - pose proof (gcf_fetches_or_creates ref_engine (Some 0%nat) initial_world
                  0%nat initial_world eq_refl) as H.
    change (eng_current_scene (the_engine (heap initial_world) 0%nat))
      with (@None nat) in H.
    destruct H as (_ & _ & H).
    destruct (H 0) as (_ & _ & Hcreate); [vm_compute; reflexivity |].
    apply (Hcreate
             (snd (new_scene ref_engine 0%nat (scene_name (0 + 1)) default_size
                     (set_numbers ({[ 0 + 1 ]} ∪ scene_number_list initial_world)
                        initial_world)))
             0%nat (Some blank_viewer)).
    + reflexivity.
    + vm_compute. reflexivity.
    + vm_compute. reflexivity.
    + intros c h. reflexivity.
Defined.

Lemma clf_leaves_figure_empty_witness :
  exists w',
    clf ref_engine (Some 0%nat) gallery = (Ok tt, w') /\
    fig_children (the_fig (heap w') 0%nat) = Some [].
Proof.
  exact (clf_leaves_figure_empty ref_engine 0%nat gallery blank_viewer
           [7%nat; 8%nat] eq_refl eq_refl).
Defined.

Lemma clf_restores_rendering_witness :
  exists w',
    clf ref_engine (Some 0%nat) gallery = (Ok tt, w') /\
    fig_scene (the_fig (heap w') 0%nat) = Some (Some blank_viewer).
Proof.
  exact (clf_restores_rendering ref_engine 0%nat gallery blank_viewer
           [7%nat; 8%nat] eq_refl eq_refl eq_refl).
Defined.

(** C5.  Where [clf] leaves rendering disabled: object [3]
    has a viewer, with [disable_render] False, but no [children].
    Line 112 sets the flag, line 113 raises [AttributeError], the
    [except] clause swallows it and line 114, which would reset the
    flag, is skipped: [clf] returns normally and [disable_render] is
    True. *)
Lemma clf_leaves_rendering_disabled :
  fig_scene (the_fig (heap gallery) 3%nat) = Some (Some blank_viewer) /\
  disable_render blank_viewer = false /\
  fst (clf ref_engine (Some 3%nat) gallery) = Ok tt /\
  fig_scene (the_fig (heap (snd (clf ref_engine (Some 3%nat) gallery))) 3%nat)
    = Some (Some (with_disable_render true blank_viewer)) /\
  disable_render (with_disable_render true blank_viewer) = true.
Proof.
  repeat split; vm_compute; reflexivity.
Qed.

Lemma clf_swallows_AttributeError_witness :
  clf ref_engine (Some 2%nat) gallery = (Ok tt, log call_gc_collect gallery).
Proof.
  apply (proj1 (clf_swallows_AttributeError ref_engine (Some 2%nat) gallery)).
  vm_compute. reflexivity.
Defined.

(** C7 fails when [gcf] finds no current scene: it calls [figure],
    which adds a number to the set. *)
Lemma only_figure_writes_scene_numbers_counterexample :
  scene_number_list initial_world = {[ 0 ]} /\
  scene_number_list (after ref_engine (Gcf None) initial_world) = {[ 1 ]} ∪ {[ 0 ]} /\
  scene_number_list (after ref_engine (Gcf None) initial_world)
    <> scene_number_list initial_world.
Proof.
  split; [reflexivity |]. split; [vm_compute; reflexivity |].
  intros H. apply (f_equal (fun s => bool_decide (1 ∈ s))) in H.
  vm_compute in H. discriminate H.
Qed.

Lemma savefig_delegates_to_save_witness :
  calls (snd (savefig ref_engine "out.png" (Some (640, 480)) (Some 0%nat)
                [("quality", PyInt 90)] gallery)) =
  [call_save 0%nat "out.png" (Some (640, 480)) [("quality", PyInt 90)]].
Proof.
  exact (proj2 (savefig_delegates_to_save ref_engine "out.png" (Some (640, 480))
                  (Some 0%nat) [("quality", PyInt 90)] gallery 0%nat gallery
                  blank_viewer eq_refl eq_refl)).
Defined.

(** C9 fails for a figure without viewer: the look-up of
    [figure.scene.save] raises and the save routine is not called. *)
Lemma savefig_delegates_to_save_counterexample :
  fig_scene (the_fig (heap gallery) 2%nat) = Some None /\
  savefig ref_engine "out.png" None (Some 2%nat) [] gallery
    = (Raise AttributeError, gallery) /\
  calls (snd (savefig ref_engine "out.png" None (Some 2%nat) [] gallery)) = [].
Proof.
  repeat split; vm_compute; reflexivity.
Qed.

(** ** Monotone programs *)

Lemma monotone_ret {A} (a : A) : monotone (ret a).
Proof. intros w. simpl. repeat split; [done |]. exists []. by rewrite app_nil_r. Qed.

Lemma monotone_raise {A} e : monotone (@raise A e).
Proof. intros w. simpl. repeat split; [done |]. exists []. by rewrite app_nil_r. Qed.

Lemma monotone_bind {A B} (m : M A) (k : A -> M B) :
  monotone m -> (forall a, monotone (k a)) -> monotone (bind m k).
Proof.
  intros Hm Hk w. unfold bind. destruct (Hm w) as (Ho & Hs & l & Hl).
  destruct (m w) as [[a|e] w1]; simpl in *.
  - destruct (Hk a w1) as (Ho' & Hs' & l' & Hl').
    repeat split.
    + congruence.
    + etrans; eassumption.
    + exists (l ++ l'). rewrite Hl', Hl, app_assoc. reflexivity.
  - repeat split; [assumption .. |]. by exists l.
Qed.

Lemma monotone_try m : monotone m -> monotone (try_except_AttributeError m).
Proof.
  intros Hm w. unfold try_except_AttributeError. specialize (Hm w).
  destruct (m w) as [[a|[]] w1]; exact Hm.
Qed.

(** A program that leaves the set, the options and the calls as they
    are. *)
Lemma monotone_silent {A} (m : M A) :
  (forall w, scene_number_list (snd (m w)) = scene_number_list w /\
             options (snd (m w)) = options w /\
             calls (snd (m w)) = calls w) ->
  monotone m.
Proof.
  intros H w. destruct (H w) as (Hs & Ho & Hc).
  repeat split; [exact Ho | by rewrite Hs |]. exists []. by rewrite app_nil_r.
Qed.

Section Monotone.

Variable X : Externals.

Lemma monotone_get_engine : monotone (get_engine X).
Proof.
  intros w. unfold get_engine.
  destruct (ext_get_engine X (heap (log call_get_engine w))). simpl.
  repeat split; [done |]. by eexists.
Qed.

Lemma monotone_new_scene engine name size : monotone (new_scene X engine name size).
Proof.
  intros w. unfold new_scene.
  destruct (ext_new_scene X engine name size
              (heap (log (call_new_scene engine name size) w))). simpl.
  repeat split; [done |]. by eexists.
Qed.

Lemma monotone_method c : monotone (method X c).
Proof. intros w. simpl. repeat split; [done |]. by eexists. Qed.

Lemma monotone_gc_collect : monotone gc_collect.
Proof. intros w. simpl. repeat split; [done |]. by eexists. Qed.

Lemma monotone_update_scene_number_list n : monotone (update_scene_number_list n).
Proof.
  intros w. simpl. repeat split.
  - apply union_subseteq_r.
  - exists []. by rewrite app_nil_r.
Qed.

Lemma monotone_max_scene_number : monotone max_scene_number.
Proof.
  apply monotone_silent. intros w. unfold max_scene_number.
  destruct (py_max (scene_number_list w)); auto.
Qed.

Lemma monotone_read_current_scene engine : monotone (read_current_scene engine).
Proof. apply monotone_silent. auto. Qed.

Lemma monotone_read_scenes engine : monotone (read_scenes engine).
Proof. apply monotone_silent. auto. Qed.

Lemma monotone_read_options : monotone read_options.
Proof. apply monotone_silent. auto. Qed.

Lemma monotone_write_current_scene engine scene :
  monotone (write_current_scene engine scene).
Proof. apply monotone_silent. auto. Qed.

Lemma monotone_write_current_scene_name engine name :
  monotone (write_current_scene_name engine name).
Proof.
  apply monotone_silent. intros w. unfold write_current_scene_name.
  destruct (eng_current_scene (the_engine (heap w) engine)); auto.
Qed.

Lemma monotone_read_scene f : monotone (read_scene f).
Proof.
  apply monotone_silent. intros w. unfold read_scene.
  destruct (fig_scene (the_fig (heap w) f)); auto.
Qed.

Lemma monotone_update_scene f upd : monotone (update_scene f upd).
Proof.
  apply monotone_silent. intros w. unfold update_scene.
  destruct (fig_scene (the_fig (heap w) f)) as [[s|]|]; auto.
Qed.

Lemma monotone_clear_children f : monotone (clear_children f).
Proof.
  apply monotone_silent. intros w. unfold clear_children.
  destruct (fig_children (the_fig (heap w) f)); auto.
Qed.

Lemma monotone_resolve_engine engine : monotone (resolve_engine X engine).
Proof. destruct engine; [apply monotone_ret | apply monotone_get_engine]. Qed.

Lemma monotone_setup_scene engine bgcolor fgcolor :
  monotone (setup_scene X engine bgcolor fgcolor).
Proof.
  unfold setup_scene.
  apply monotone_bind; [apply monotone_read_current_scene |].
  intros [fig|]; [| apply monotone_raise].
  apply monotone_bind; [apply monotone_read_scene |].
  intros [s|]; [| apply monotone_ret].
  apply monotone_bind; [apply monotone_read_options | intros opts].
  apply monotone_bind; [apply monotone_update_scene | intros _].
  apply monotone_bind; [apply monotone_update_scene | intros _].
  apply monotone_bind; [| intros _; apply monotone_ret].
  destruct (has_isometric_view s); apply monotone_method.
Qed.

Lemma monotone_name_and_setup engine name bgcolor fgcolor :
  monotone (write_current_scene_name engine name ;;;
            setup_scene X engine bgcolor fgcolor).
Proof.
  apply monotone_bind; [apply monotone_write_current_scene_name | intros _].
  apply monotone_setup_scene.
Qed.

Lemma monotone_create engine name size bgcolor fgcolor :
  monotone (new_scene X engine name size ;;;
            write_current_scene_name engine name ;;;
            setup_scene X engine bgcolor fgcolor).
Proof.
  apply monotone_bind; [apply monotone_new_scene | intros _].
  apply monotone_name_and_setup.
Qed.

Lemma monotone_find_or_create engine name bgcolor fgcolor size :
  monotone (find_or_create X engine name bgcolor fgcolor size).
Proof.
  unfold find_or_create. apply monotone_bind; [apply monotone_read_scenes |].
  intros scenes w. destruct (find_scene (heap w) name scenes).
  - apply (monotone_bind (write_current_scene engine n) (fun _ => ret n));
      [apply monotone_write_current_scene | intros _; apply monotone_ret].
  - apply monotone_create.
Qed.

Lemma monotone_figure name bgcolor fgcolor engine size :
  monotone (figure X name bgcolor fgcolor engine size).
Proof.
  unfold figure. apply monotone_bind; [apply monotone_resolve_engine | intros e].
  destruct name as [|n|s].
  - apply monotone_bind; [apply monotone_max_scene_number | intros m].
    apply monotone_bind; [apply monotone_update_scene_number_list | intros _].
    apply monotone_create.
  - apply monotone_bind; [apply monotone_update_scene_number_list | intros _].
    apply monotone_find_or_create.
  - apply monotone_find_or_create.
Qed.

Lemma monotone_gcf engine : monotone (gcf X engine).
Proof.
  unfold gcf. apply monotone_bind; [apply monotone_resolve_engine | intros e].
  apply monotone_bind; [apply monotone_read_current_scene |].
  intros [scene|]; [apply monotone_ret | apply monotone_figure].
Qed.

Lemma monotone_resolve_figure figure : monotone (resolve_figure X figure).
Proof. destruct figure; [apply monotone_ret | apply monotone_gcf]. Qed.

Lemma monotone_clf figure : monotone (clf X figure).
Proof.
  unfold clf. apply monotone_bind; [| intros _; apply monotone_gc_collect].
  apply monotone_try. unfold clear_sequence.
  apply monotone_bind; [apply monotone_resolve_figure | intros f].
  apply monotone_bind; [apply monotone_update_scene | intros _].
  apply monotone_bind; [apply monotone_clear_children | intros _].
  apply monotone_update_scene.
Qed.

Lemma monotone_draw figure : monotone (draw X figure).
Proof.
  unfold draw. apply monotone_bind; [apply monotone_resolve_figure | intros f].
  apply monotone_method.
Qed.

Lemma monotone_savefig filename size figure kwargs :
  monotone (savefig X filename size figure kwargs).
Proof.
  unfold savefig. apply monotone_bind; [apply monotone_resolve_figure | intros f].
  apply monotone_bind; [apply monotone_read_scene |].
  intros [s|]; [apply monotone_method | apply monotone_raise].
Qed.

Lemma state_after_monotone c w :
  options (state_after X c w) = options w /\
  scene_number_list w ⊆ scene_number_list (state_after X c w) /\
  exists l, calls (state_after X c w) = calls w ++ l.
Proof.
  destruct c as [a|[engine|figure|figure|filename size figure kwargs]]; simpl.
  - apply monotone_figure.
  - apply monotone_gcf.
  - apply monotone_clf.
  - apply monotone_draw.
  - apply monotone_savefig.
Qed.

End Monotone.

(** ** More on the set of scene numbers *)

Lemma py_max_unique (s : gset Z) (m : Z) :
  m ∈ s -> (forall x, x ∈ s -> x <= m) -> py_max s = Some m.
Proof.
  intros Hm Hub. destruct (py_max_nonempty s m Hm) as [m' Hm'].
  rewrite Hm'. f_equal.
  apply py_max_Some in Hm' as [Hin' Hub'].
  specialize (Hub m' Hin'). specialize (Hub' m Hm). lia.
Qed.

Lemma py_max_insert (s : gset Z) (m n : Z) :
  py_max s = Some m -> py_max ({[ n ]} ∪ s) = Some (Z.max m n).
Proof.
  intros H. apply py_max_Some in H as [Hin Hub]. apply py_max_unique.
  - destruct (Z.max_spec m n) as [[_ ->]|[_ ->]].
    + apply elem_of_union_l. by apply elem_of_singleton.
    + by apply elem_of_union_r.
  - intros x Hx. apply elem_of_union in Hx as [Hx|Hx].
    + apply elem_of_singleton in Hx as ->. lia.
    + specialize (Hub x Hx). lia.
Qed.

Section MoreNumbers.

Variable X : Externals.

Lemma create_calls engine name size bgcolor fgcolor w :
  exists tl,
    calls (snd ((new_scene X engine name size ;;;
                 write_current_scene_name engine name ;;;
                 setup_scene X engine bgcolor fgcolor) w)) =
    calls w ++ call_new_scene engine name size :: tl.
Proof.
  unfold bind at 1.
  assert (Hnew : calls (snd (new_scene X engine name size w)) =
                 calls w ++ [call_new_scene engine name size]).
  { unfold new_scene.
    destruct (ext_new_scene X engine name size
                (heap (log (call_new_scene engine name size) w))).
    reflexivity. }
  destruct (new_scene X engine name size w) as [[[]|ex] w1]; simpl in Hnew.
  - destruct (monotone_name_and_setup X engine name bgcolor fgcolor w1)
      as (_ & _ & l & Hl).
    exists l. rewrite Hl, Hnew, <- app_assoc. reflexivity.
  - exists []. exact Hnew.
Qed.

Lemma figure_auto_calls bgcolor fgcolor engine size w e w0 m :
  resolve_engine X engine w = (Ok e, w0) ->
  py_max (scene_number_list w) = Some m ->
  exists tl,
    calls (snd (figure X NameNone bgcolor fgcolor engine size w)) =
    calls w0 ++ call_new_scene e (scene_name (m + 1)) size :: tl.
Proof.
  intros He Hmax. destruct (resolve_engine_frame X _ _ _ _ He) as [Hnum _].
  rewrite (figure_auto_name X _ _ _ _ _ _ _ He), Hnum, Hmax.
  destruct (create_calls e (scene_name (m + 1)) size bgcolor fgcolor
              (set_numbers ({[ m + 1 ]} ∪ scene_number_list w) w0)) as [tl Htl].
  exists tl. exact Htl.
Qed.

(** No function of the module ever removes a scene number or touches
    the options: after any call of [figure], [gcf], [clf], [draw] or
    [savefig], returning or raising, every number that was in the set
    is still there and the options are the same. *)
Theorem scene_numbers_never_shrink c w :
  scene_number_list w ⊆ scene_number_list (state_after X c w) /\
  options (state_after X c w) = options w.
Proof.
  destruct (state_after_monotone X c w) as (Ho & Hs & _). auto.
Qed.

Lemma reachable_zero w : reachable X w -> 0 ∈ scene_number_list w.
Proof.
  induction 1 as [h o|c w _ IH].
  - simpl. by apply elem_of_singleton.
  - destruct (state_after_monotone X c w) as (_ & Hs & _). by apply Hs.
Qed.

(** In every state the module can reach from its initial set [{0}], the
    set has a maximum, which is not negative; so [max] at line 50 does
    not raise, and a call of [figure] without a name, on a given
    engine, always gets as far as asking the engine for the scene
    ['Mayavi Scene m+1']. *)
Theorem reachable_auto_name_is_requested w :
  reachable X w ->
  exists m,
    py_max (scene_number_list w) = Some m /\
    0 <= m /\
    forall bgcolor fgcolor e size,
    exists tl,
      calls (snd (figure X NameNone bgcolor fgcolor (Some e) size w)) =
      calls w ++ call_new_scene e (scene_name (m + 1)) size :: tl.
Proof.
  intros Hw. apply reachable_zero in Hw.
  destruct (py_max_nonempty _ _ Hw) as [m Hm]. exists m.
  split; [exact Hm |]. split.
  - apply py_max_Some in Hm as [_ Hub]. by apply Hub.
  - intros bgcolor fgcolor e size.
    apply (figure_auto_calls _ _ _ _ _ _ _ _ (resolve_engine_Some X e w) Hm).
Qed.

(** The number is recorded before the engine is asked for anything
    (lines 51 and 59): once [figure] has its engine, the set after the
    call is the old set with the new number added, whether the call
    returns or the engine makes it raise. *)
Theorem figure_records_number_whatever_happens
    name bgcolor fgcolor engine size w e w0 :
  resolve_engine X engine w = (Ok e, w0) ->
  scene_number_list (snd (figure X name bgcolor fgcolor engine size w)) =
  numbers_after_figure name (scene_number_list w).
Proof.
  intros He. rewrite figure_numbers, He. reflexivity.
Qed.

(** A string name is never recorded, even when it has the form of an
    automatic name.  So after [figure('Mayavi Scene k')] with [k] the
    next free number, the set is unchanged and the next call without a
    name asks the engine for a scene of that very name again. *)
Theorem string_name_can_collide_with_auto_name
    bgcolor fgcolor size bgcolor' fgcolor' size' e w m :
  py_max (scene_number_list w) = Some m ->
  let w1 := snd (figure X (NameStr (scene_name (m + 1))) bgcolor fgcolor
                   (Some e) size w) in
  scene_number_list w1 = scene_number_list w /\
  exists tl,
    calls (snd (figure X NameNone bgcolor' fgcolor' (Some e) size' w1)) =
    calls w1 ++ call_new_scene e (scene_name (m + 1)) size' :: tl.
Proof.
  intros Hmax w1.
  assert (Hnum : scene_number_list w1 = scene_number_list w).
  { unfold w1. rewrite figure_numbers. reflexivity. }
  split; [exact Hnum |].
  apply (figure_auto_calls _ _ _ _ _ _ _ _ (resolve_engine_Some X e w1)).
  by rewrite Hnum.
Qed.

(** An integer name moves the counter when it exceeds the maximum: after
    [figure(n)], returning or not, the maximum of the set is the greater
    of [n] and the old maximum, and the next automatic number is one
    more. *)
Theorem integer_name_moves_the_counter n bgcolor fgcolor engine size w e w0 m :
  resolve_engine X engine w = (Ok e, w0) ->
  py_max (scene_number_list w) = Some m ->
  py_max (scene_number_list (snd (figure X (NameInt n) bgcolor fgcolor engine size w)))
  = Some (Z.max m n).
Proof.
  intros He Hmax. rewrite figure_numbers, He. simpl. by apply py_max_insert.
Qed.

End MoreNumbers.

(** The loop of lines 63-67 finds a scene exactly when one of the
    engine's scenes bears the name, and then it is the first of them in
    the order of [engine.scenes]. *)
Theorem find_scene_finds_the_first h name scenes :
  (forall scene,
     find_scene h name scenes = Some scene <->
     exists before after,
       scenes = before ++ scene :: after /\
       fig_name (the_fig h scene) = name /\
       Forall (fun g => fig_name (the_fig h g) <> name) before) /\
  (find_scene h name scenes = None <->
   forall g, g ∈ scenes -> fig_name (the_fig h g) <> name).
Proof.
  split.
  - intros scene. split.
    + apply find_scene_Some.
    + intros (before & after & -> & Hname & Hbefore).
      by apply find_scene_first.
  - rewrite find_scene_None. apply Forall_forall.
Qed.

(** ** Names given as integers and as strings *)

Lemma blind_ret {A} (a : A) : numbers_blind (ret a).
Proof. intros s w. reflexivity. Qed.

Lemma blind_raise {A} e : numbers_blind (@raise A e).
Proof. intros s w. reflexivity. Qed.

Lemma blind_bind {A B} (m : M A) (k : A -> M B) :
  numbers_blind m -> (forall a, numbers_blind (k a)) -> numbers_blind (bind m k).
Proof.
  intros Hm Hk s w. unfold bind. rewrite Hm.
  destruct (m w) as [[a|e] w1]; simpl; [apply Hk | reflexivity].
Qed.

Section Blind.

Variable X : Externals.

Lemma blind_new_scene engine name size : numbers_blind (new_scene X engine name size).
Proof.
  intros s w. unfold new_scene. simpl.
  destruct (ext_new_scene X engine name size (heap w)). reflexivity.
Qed.

Lemma blind_method c : numbers_blind (method X c).
Proof. intros s w. reflexivity. Qed.

Lemma blind_read_current_scene engine : numbers_blind (read_current_scene engine).
Proof. intros s w. reflexivity. Qed.

Lemma blind_read_scenes engine : numbers_blind (read_scenes engine).
Proof. intros s w. reflexivity. Qed.

Lemma blind_read_options : numbers_blind read_options.
Proof. intros s w. reflexivity. Qed.

Lemma blind_write_current_scene engine scene :
  numbers_blind (write_current_scene engine scene).
Proof. intros s w. reflexivity. Qed.

Lemma blind_write_current_scene_name engine name :
  numbers_blind (write_current_scene_name engine name).
Proof.
  intros s w. unfold write_current_scene_name. simpl.
  destruct (eng_current_scene (the_engine (heap w) engine)); reflexivity.
Qed.

Lemma blind_read_scene f : numbers_blind (read_scene f).
Proof.
  intros s w. unfold read_scene. simpl.
  destruct (fig_scene (the_fig (heap w) f)); reflexivity.
Qed.

Lemma blind_update_scene f upd : numbers_blind (update_scene f upd).
Proof.
  intros s w. unfold update_scene. simpl.
  destruct (fig_scene (the_fig (heap w) f)) as [[v|]|]; reflexivity.
Qed.

Lemma blind_setup_scene engine bgcolor fgcolor :
  numbers_blind (setup_scene X engine bgcolor fgcolor).
Proof.
  unfold setup_scene.
  apply blind_bind; [apply blind_read_current_scene |].
  intros [fig|]; [| apply blind_raise].
  apply blind_bind; [apply blind_read_scene |].
  intros [v|]; [| apply blind_ret].
  apply blind_bind; [apply blind_read_options | intros opts].
  apply blind_bind; [apply blind_update_scene | intros _].
  apply blind_bind; [apply blind_update_scene | intros _].
  apply blind_bind; [| intros _; apply blind_ret].
  destruct (has_isometric_view v); apply blind_method.
Qed.

Lemma blind_find_or_create engine name bgcolor fgcolor size :
  numbers_blind (find_or_create X engine name bgcolor fgcolor size).
Proof.
  unfold find_or_create. apply blind_bind; [apply blind_read_scenes |].
  intros scenes s w. simpl.
  destruct (find_scene (heap w) name scenes) as [scene|].
  - reflexivity.
  - apply (blind_bind (new_scene X engine name size)
             (fun _ => write_current_scene_name engine name ;;;
                       setup_scene X engine bgcolor fgcolor));
      [apply blind_new_scene | intros _].
    apply blind_bind; [apply blind_write_current_scene_name | intros _].
    apply blind_setup_scene.
Qed.

(** [figure(n)] is [figure('Mayavi Scene n')] with [n] recorded: once
    the engine is known, the two calls return or raise the same, leave
    the same store and make the same calls; only the set differs, by
    [n]. *)
Theorem integer_name_is_formatted_name n bgcolor fgcolor engine size w e w0 :
  resolve_engine X engine w = (Ok e, w0) ->
  let by_number := figure X (NameInt n) bgcolor fgcolor engine size w in
  let by_string := figure X (NameStr (scene_name n)) bgcolor fgcolor engine size w in
  fst by_number = fst by_string /\
  heap (snd by_number) = heap (snd by_string) /\
  calls (snd by_number) = calls (snd by_string) /\
  scene_number_list (snd by_number) = {[ n ]} ∪ scene_number_list (snd by_string).
Proof.
  intros He by_number by_string. unfold by_number, by_string.
  rewrite (figure_explicit_name X (NameInt n) _ _ _ _ _ _ _ _ He eq_refl).
  rewrite (figure_explicit_name X (NameStr (scene_name n)) _ _ _ _ _ _ _ _ He eq_refl).
  simpl. rewrite blind_find_or_create. simpl.
  repeat split. by rewrite keeps_find_or_create.
Qed.

End Blind.

(** ** Calling again *)

Lemma set_engine_set_engine e u v h :
  set_engine e v (set_engine e u h) = set_engine e v h.
Proof. unfold set_engine. simpl. by rewrite insert_insert_eq. Qed.

Lemma set_fig_set_fig f u v h : set_fig f v (set_fig f u h) = set_fig f v h.
Proof. unfold set_fig. simpl. by rewrite insert_insert_eq. Qed.

Lemma made_current_idem engine scene w :
  made_current engine scene (made_current engine scene w) =
  made_current engine scene w.
Proof.
  unfold made_current, set_heap. simpl.
  rewrite the_engine_set_engine_eq. simpl.
  by rewrite set_engine_set_engine.
Qed.

Lemma noted_idem name w : noted name (noted name w) = noted name w.
Proof.
  destruct name as [|n|s]; try reflexivity.
  unfold noted, set_numbers. simpl.
  by rewrite (assoc_L (∪)), (idemp_L (∪) {[ n ]}).
Qed.

Lemma noted_made_current name engine scene w :
  noted name (made_current engine scene w) =
  made_current engine scene (noted name w).
Proof. destruct name; reflexivity. Qed.

Lemma heap_noted name w : heap (noted name w) = heap w.
Proof. destruct name; reflexivity. Qed.

Lemma find_scene_set_engine e v h name scenes :
  find_scene (set_engine e v h) name scenes = find_scene h name scenes.
Proof.
  induction scenes as [|g l IH]; simpl; [reflexivity |].
  rewrite the_fig_set_engine, IH. reflexivity.
Qed.

Section Again.

Variable X : Externals.

Lemma find_or_create_retrieves engine name bgcolor fgcolor size w scene :
  find_scene (heap w) name (eng_scenes (the_engine (heap w) engine)) = Some scene ->
  find_or_create X engine name bgcolor fgcolor size w =
  (Ok scene, made_current engine scene w).
Proof.
  intros Hfind. unfold find_or_create. unfold bind at 1, read_scenes.
  rewrite Hfind. reflexivity.
Qed.

Lemma figure_Ok_is_current name bgcolor fgcolor e size w fig w' :
  figure X name bgcolor fgcolor (Some e) size w = (Ok fig, w') ->
  eng_current_scene (the_engine (heap w') e) = Some fig /\
  (forall s, requested_name name = Some s -> fig_name (the_fig (heap w') fig) = s).
Proof.
  intros H. destruct (requested_name name) as [s|] eqn:Es.
  - rewrite (figure_explicit_name X _ _ _ _ _ _ _ _ _ (resolve_engine_Some X e w) Es)
      in H.
    apply find_or_create_Ok in H as (Hcur & Hname & _).
    split; [exact Hcur |]. by intros ? [= <-].
  - destruct name; try discriminate Es.
    rewrite (figure_auto_name X _ _ _ _ _ _ _ (resolve_engine_Some X e w)) in H.
    destruct (py_max (scene_number_list w)) as [m|]; [| discriminate H].
    apply create_Ok in H as (Hcur & _). split; [exact Hcur | discriminate].
Qed.

(** Retrieving is idempotent: when the name is borne by a scene of the
    engine, [figure] returns that scene, and the same call again,
    whatever colours and size it is given, returns the same scene and
    leaves the state exactly as the first call left it. *)
Theorem retrieval_is_idempotent
    name bgcolor fgcolor size bgcolor' fgcolor' size' e w scene :
  existing_scene name e w = Some scene ->
  exists w',
    figure X name bgcolor fgcolor (Some e) size w = (Ok scene, w') /\
    figure X name bgcolor' fgcolor' (Some e) size' w' = (Ok scene, w').
Proof.
  unfold existing_scene. intros Hfind.
  destruct (requested_name name) as [s|] eqn:Es; [| discriminate Hfind].
  exists (made_current e scene (noted name w)). split.
  - rewrite (figure_explicit_name X _ _ _ _ _ _ _ _ _ (resolve_engine_Some X e w) Es).
    apply find_or_create_retrieves. by rewrite heap_noted.
  - rewrite (figure_explicit_name X _ _ _ _ _ _ _ _ _
               (resolve_engine_Some X e _) Es).
    rewrite noted_made_current, noted_idem.
    rewrite find_or_create_retrieves with (scene := scene).
    + by rewrite made_current_idem.
    + unfold made_current. simpl. rewrite the_engine_set_engine_eq. simpl.
      rewrite heap_noted, find_scene_set_engine. exact Hfind.
Qed.

(** After [figure] returned a figure for a name, a second call with the
    name does not create anything, provided the engine lists the figure
    among its scenes: it returns a scene bearing the name without
    calling the engine and without changing any figure. *)
Theorem figure_again_does_not_create
    name s bgcolor fgcolor size bgcolor' fgcolor' size' e w fig w' :
  requested_name name = Some s ->
  figure X name bgcolor fgcolor (Some e) size w = (Ok fig, w') ->
  fig ∈ eng_scenes (the_engine (heap w') e) ->
  exists scene w'',
    figure X name bgcolor' fgcolor' (Some e) size' w' = (Ok scene, w'') /\
    fig_name (the_fig (heap w') scene) = s /\
    calls w'' = calls w' /\
    figs (heap w'') = figs (heap w').
Proof.
  intros Es H Hin.
  apply figure_Ok_is_current in H as [_ Hname]. specialize (Hname s Es).
  destruct (find_scene (heap w') s (eng_scenes (the_engine (heap w') e)))
    as [scene|] eqn:Hfind.
  - exists scene, (made_current e scene (noted name w')).
    repeat split.
    + rewrite (figure_explicit_name X _ _ _ _ _ _ _ _ _
                 (resolve_engine_Some X e w') Es).
      apply find_or_create_retrieves. by rewrite heap_noted.
    + by apply find_scene_Some in Hfind as (_ & _ & _ & Hs & _).
    + destruct name; reflexivity.
    + simpl. by rewrite heap_noted.
  - apply find_scene_None in Hfind.
    eapply Forall_forall in Hfind; [| exact Hin]. contradiction.
Qed.

Lemma gcf_Ok_is_current engine w fig w' :
  gcf X engine w = (Ok fig, w') ->
  exists e w0,
    resolve_engine X engine w = (Ok e, w0) /\
    eng_current_scene (the_engine (heap w') e) = Some fig.
Proof.
  intros H. destruct (resolve_engine X engine w) as [[e|ex] w0] eqn:He.
  - exists e, w0. split; [reflexivity |].
    rewrite (gcf_unfold X _ _ _ _ He) in H.
    destruct (eng_current_scene (the_engine (heap w0) e)) as [scene|] eqn:Ecur.
    + by injection H as <- <-.
    + by apply figure_Ok_is_current in H as [Hcur _].
  - unfold gcf in H. rewrite (bind_Raise _ _ _ _ _ He) in H. discriminate H.
Qed.

(** [gcf] is stable: once it has returned a figure for an engine,
    calling it again on that engine returns the same figure and changes
    nothing, so at most the first call creates a scene. *)
Theorem gcf_twice_returns_the_same e w fig w' :
  gcf X (Some e) w = (Ok fig, w') ->
  gcf X (Some e) w' = (Ok fig, w').
Proof.
  intros H. apply gcf_Ok_is_current in H as (e' & w0 & He & Hcur).
  rewrite resolve_engine_Some in He. injection He as <- <-.
  rewrite (gcf_unfold X _ _ _ _ (resolve_engine_Some X e w')), Hcur.
  reflexivity.
Qed.

(** Without a figure argument, [draw] and [savefig] act on the current
    scene: when they return, their last call is [render], respectively
    [save] with the arguments given, on the figure that is then the
    current scene of the engine [get_engine] gave. *)
Theorem draw_and_savefig_default_to_current_scene filename size kwargs w w' :
  (draw X None w = (Ok tt, w') ->
   exists e w0 fig l,
     resolve_engine X None w = (Ok e, w0) /\
     eng_current_scene (the_engine (heap w') e) = Some fig /\
     calls w' = l ++ [call_render fig]) /\
  (savefig X filename size None kwargs w = (Ok tt, w') ->
   exists e w0 fig l,
     resolve_engine X None w = (Ok e, w0) /\
     eng_current_scene (the_engine (heap w') e) = Some fig /\
     calls w' = l ++ [call_save fig filename size kwargs]).
Proof.
  split; intros H.
  - apply bind_Ok_inv in H as (fig & w1 & Hfig & H).
    apply gcf_Ok_is_current in Hfig as (e & w0 & He & Hcur).
    unfold method in H. injection H as _ <-.
    exists e, w0, fig, (calls w1). auto.
  - apply bind_Ok_inv in H as (fig & w1 & Hfig & H).
    apply gcf_Ok_is_current in Hfig as (e & w0 & He & Hcur).
    apply bind_Ok_inv in H as (sc & w2 & Hsc & H).
    unfold read_scene in Hsc.
    destruct (fig_scene (the_fig (heap w1) fig)); [| discriminate Hsc].
    injection Hsc as <- <-.
    destruct o; [| discriminate H].
    unfold method in H. injection H as _ <-.
    exists e, w0, fig, (calls w1). auto.
Qed.

End Again.

(** ** More on clf *)

Lemma cleared_engines f h : engines (cleared f h) = engines h.
Proof.
  unfold cleared.
  destruct (fig_scene (the_fig h f)) as [[s|]|];
    destruct (fig_children (the_fig h f)); reflexivity.
Qed.

Lemma cleared_other f g h : g <> f -> the_fig (cleared f h) g = the_fig h g.
Proof.
  intros Hne. unfold cleared.
  destruct (fig_scene (the_fig h f)) as [[s|]|];
    destruct (fig_children (the_fig h f)); try reflexivity;
    by apply the_fig_set_fig_ne.
Qed.

Lemma cleared_idem f h : cleared f (cleared f h) = cleared f h.
Proof.
  unfold cleared at 2 3.
  destruct (fig_scene (the_fig h f)) as [[s|]|] eqn:Hs;
    destruct (fig_children (the_fig h f)) as [l|] eqn:Hc.
  1, 2: unfold cleared; rewrite the_fig_set_fig_eq; simpl;
        by rewrite set_fig_set_fig.
  all: unfold cleared; by rewrite Hs, ?Hc.
Qed.

Section MoreClf.

Variable X : Externals.

Lemma clear_sequence_explicit f w :
  exists r,
    (r = Ok tt \/ r = Raise AttributeError) /\
    (clear_sequence X (Some f) w = (r, set_heap (cleared f (heap w)) w) \/
     (clear_sequence X (Some f) w = (r, w) /\ cleared f (heap w) = heap w)).
Proof.
  unfold cleared.
  destruct (fig_scene (the_fig (heap w) f)) as [[s|]|] eqn:Hs.
  - destruct (fig_children (the_fig (heap w) f)) as [l|] eqn:Hc.
    + exists (Ok tt). split; [by left |]. left.
      unfold clear_sequence, resolve_figure, bind, ret, update_scene.
      rewrite Hs, Hc. unfold clear_children. simpl.
      rewrite the_fig_set_fig_eq. simpl. rewrite the_fig_set_fig_eq. simpl.
      by rewrite !set_fig_set_fig.
    + exists (Raise AttributeError). split; [by right |]. left.
      by rewrite (clear_sequence_no_children X f w s Hs Hc).
  - exists (Raise AttributeError). split; [by right |]. right.
    split; [| reflexivity].
    apply clear_sequence_no_scene. intros s. by rewrite Hs.
  - exists (Raise AttributeError). split; [by right |]. right.
    split; [| reflexivity].
    apply clear_sequence_no_scene. intros s. by rewrite Hs.
Qed.

Lemma clf_explicit f w :
  fst (clf X (Some f) w) = Ok tt /\
  heap (snd (clf X (Some f) w)) = cleared f (heap w) /\
  scene_number_list (snd (clf X (Some f) w)) = scene_number_list w /\
  options (snd (clf X (Some f) w)) = options w /\
  calls (snd (clf X (Some f) w)) = calls w ++ [call_gc_collect].
Proof.
  rewrite clf_unfold.
  destruct (clear_sequence_explicit f w) as (r & Hr & [H|[H Hh]]);
    rewrite H; destruct Hr as [-> | ->]; simpl; auto.
Qed.

(** [clf(figure=f)] touches nothing but the children and the render
    flag of [f]: the engines, every other figure, the name of [f], the
    colours of its viewer, the set of scene numbers and the options are
    as before, and the only call that leaves the module is the one
    [gc.collect()], made whether or not the clearing failed. *)
Theorem clf_touches_only_its_figure f w :
  let w' := snd (clf X (Some f) w) in
  engines (heap w') = engines (heap w) /\
  (forall g, g <> f -> the_fig (heap w') g = the_fig (heap w) g) /\
  fig_name (the_fig (heap w') f) = fig_name (the_fig (heap w) f) /\
  (forall s', fig_scene (the_fig (heap w') f) = Some (Some s') ->
     exists s, fig_scene (the_fig (heap w) f) = Some (Some s) /\
               background s' = background s /\
               foreground s' = foreground s /\
               has_isometric_view s' = has_isometric_view s) /\
  scene_number_list w' = scene_number_list w /\
  options w' = options w /\
  calls w' = calls w ++ [call_gc_collect].
Proof.
  intros w'. unfold w'.
  destruct (clf_explicit f w) as (_ & Hheap & Hnum & Hopt & Hcalls).
  rewrite Hheap. repeat split; try assumption.
  - apply cleared_engines.
  - intros g Hg. by apply cleared_other.
  - unfold cleared.
    destruct (fig_scene (the_fig (heap w) f)) as [[s|]|];
      destruct (fig_children (the_fig (heap w) f)); try reflexivity;
      by rewrite the_fig_set_fig_eq.
  - intros s'. unfold cleared.
    destruct (fig_scene (the_fig (heap w) f)) as [[s|]|] eqn:Hs;
      destruct (fig_children (the_fig (heap w) f)) eqn:Hc;
      rewrite ?the_fig_set_fig_eq, ?Hs; simpl; intros [= <-];
      exists s; auto.
Qed.

(** Clearing twice is clearing once: a second [clf(figure=f)] leaves the
    store exactly as the first did. *)
Theorem clf_twice_is_clf_once f w :
  heap (snd (clf X (Some f) (snd (clf X (Some f) w)))) =
  heap (snd (clf X (Some f) w)).
Proof.
  destruct (clf_explicit f (snd (clf X (Some f) w))) as (_ & -> & _).
  destruct (clf_explicit f w) as (_ & -> & _).
  apply cleared_idem.
Qed.

(** Only [AttributeError] is caught (line 115): any other exception
    raised inside the clear sequence, which can only come from the
    engine through [gcf], goes out of [clf] as it is, and
    [gc.collect()] is then not called. *)
Theorem clf_lets_other_errors_through figure w e w1 :
  clear_sequence X figure w = (Raise e, w1) ->
  e <> AttributeError ->
  clf X figure w = (Raise e, w1).
Proof.
  intros H He. rewrite clf_unfold, H.
  destruct e; [contradiction | reflexivity | reflexivity].
Qed.

End MoreClf.

(** ** More on creation *)

Section MoreCreation.

Variable X : Externals.

(** Automatic numbers are consecutive as long as no integer name comes
    in between: after a call without a name that got hold of its
    engine, returning or not, the maximum of the set is one more than
    before. *)
Theorem auto_name_advances_by_one bgcolor fgcolor engine size w e w0 m :
  resolve_engine X engine w = (Ok e, w0) ->
  py_max (scene_number_list w) = Some m ->
  py_max (scene_number_list (snd (figure X NameNone bgcolor fgcolor engine size w)))
  = Some (m + 1).
Proof.
  intros He Hmax. rewrite figure_numbers, He. simpl. rewrite Hmax.
  rewrite (py_max_insert _ m (m + 1) Hmax). f_equal. lia.
Qed.

(** [figure] relies on the engine to make the new scene current: when
    [engine.new_scene] returns and the engine has no current scene,
    line 54 raises an [AttributeError], and the number is already
    recorded. *)
Theorem figure_needs_a_current_scene bgcolor fgcolor engine size w e w0 m w2 :
  resolve_engine X engine w = (Ok e, w0) ->
  py_max (scene_number_list w) = Some m ->
  new_scene X e (scene_name (m + 1)) size
    (set_numbers ({[ m + 1 ]} ∪ scene_number_list w0) w0) = (Ok tt, w2) ->
  eng_current_scene (the_engine (heap w2) e) = None ->
  figure X NameNone bgcolor fgcolor engine size w = (Raise AttributeError, w2) /\
  scene_number_list w2 = {[ m + 1 ]} ∪ scene_number_list w.
Proof.
  intros He Hmax Hnew Hcur.
  destruct (resolve_engine_frame X _ _ _ _ He) as [Hnum _].
  split.
  - rewrite (figure_auto_name X _ _ _ _ _ _ _ He), Hnum, Hmax.
    rewrite Hnum in Hnew. rewrite (bind_Ok _ _ _ _ _ Hnew).
    unfold bind, write_current_scene_name. rewrite Hcur. reflexivity.
  - pose proof (keeps_new_scene X e (scene_name (m + 1)) size
                  (set_numbers ({[ m + 1 ]} ∪ scene_number_list w0) w0)) as Hk.
    rewrite Hnew in Hk. simpl in Hk. by rewrite Hk, Hnum.
Qed.

End MoreCreation.

(** ** The further theorems on sample states *)

Lemma reachable_auto_name_is_requested_witness :
  exists m,
    py_max (scene_number_list initial_world) = Some m /\
    0 <= m /\
    forall bgcolor fgcolor e size,
    exists tl,
      calls (snd (figure ref_engine NameNone bgcolor fgcolor (Some e) size
                    initial_world)) =
      calls initial_world ++ call_new_scene e (scene_name (m + 1)) size :: tl.
Proof.
  apply (reachable_auto_name_is_requested ref_engine initial_world).
  apply reachable_initial.
Defined.

Lemma figure_records_number_whatever_happens_witness :
  scene_number_list
    (snd (figure failing_engine (NameInt 5) None None (Some 0%nat) default_size
            gallery)) =
  {[ 5 ]} ∪ scene_number_list gallery.
Proof.
  exact (figure_records_number_whatever_happens failing_engine (NameInt 5) None None
           (Some 0%nat) default_size gallery 0%nat gallery eq_refl).
Defined.

Lemma string_name_can_collide_with_auto_name_witness :
  scene_number_list
    (snd (figure ref_engine (NameStr (scene_name (0 + 1))) None None (Some 0%nat)
            default_size gallery)) = scene_number_list gallery /\
  exists tl,
    calls (snd (figure ref_engine NameNone None None (Some 0%nat) default_size
                  (snd (figure ref_engine (NameStr (scene_name (0 + 1))) None None
                          (Some 0%nat) default_size gallery)))) =
    calls (snd (figure ref_engine (NameStr (scene_name (0 + 1))) None None
                  (Some 0%nat) default_size gallery))
      ++ call_new_scene 0%nat (scene_name (0 + 1)) default_size :: tl.
Proof.
  apply (string_name_can_collide_with_auto_name ref_engine None None default_size
           None None default_size 0%nat gallery 0).
  vm_compute. reflexivity.
Defined.

Lemma integer_name_moves_the_counter_witness :
  py_max (scene_number_list
            (snd (figure ref_engine (NameInt 7) None None (Some 0%nat) default_size
                    gallery))) = Some (Z.max 0 7).
Proof.
  apply (integer_name_moves_the_counter ref_engine 7 None None (Some 0%nat)
           default_size gallery 0%nat gallery).
  - reflexivity.
  - vm_compute. reflexivity.
Defined.

Lemma auto_name_advances_by_one_witness :
  py_max (scene_number_list
            (snd (figure ref_engine NameNone None None (Some 0%nat) default_size
                    gallery))) = Some (0 + 1).
Proof.
  apply (auto_name_advances_by_one ref_engine None None (Some 0%nat)
           default_size gallery 0%nat gallery).
  - reflexivity.
  - vm_compute. reflexivity.
Defined.

Lemma figure_needs_a_current_scene_witness :
  fst (figure idle_engine NameNone None None (Some 0%nat) default_size initial_world)
  = Raise AttributeError.
Proof.
  destruct (figure_needs_a_current_scene idle_engine None None (Some 0%nat)
              default_size initial_world 0%nat initial_world 0
              (snd (new_scene idle_engine 0%nat (scene_name (0 + 1)) default_size
                      (set_numbers ({[ 0 + 1 ]} ∪ scene_number_list initial_world)
                         initial_world))))
    as [H _].
  - reflexivity.
  - vm_compute. reflexivity.
  - reflexivity.
  - vm_compute. reflexivity.
  - rewrite H. reflexivity.
Defined.

Lemma integer_name_is_formatted_name_witness :
  fst (figure ref_engine (NameInt 3) None None (Some 0%nat) default_size gallery) =
  fst (figure ref_engine (NameStr (scene_name 3)) None None (Some 0%nat)
         default_size gallery).
Proof.
  exact (proj1 (integer_name_is_formatted_name ref_engine 3 None None (Some 0%nat)
                  default_size gallery 0%nat gallery eq_refl)).
Defined.

Lemma retrieval_is_idempotent_witness :
  exists w',
    figure ref_engine (NameStr "a") None None (Some 0%nat) default_size gallery
      = (Ok 0%nat, w') /\
    figure ref_engine (NameStr "a") (Some white) None (Some 0%nat) default_size w'
      = (Ok 0%nat, w').
Proof.
  apply (retrieval_is_idempotent ref_engine (NameStr "a")).
  vm_compute. reflexivity.
Defined.

Lemma figure_again_does_not_create_witness :
  exists scene w'',
    figure ref_engine (NameStr "b") None None (Some 0%nat) default_size
      (snd (figure ref_engine (NameStr "b") None None (Some 0%nat) default_size
              gallery)) = (Ok scene, w'') /\
    fig_name
      (the_fig
         (heap (snd (figure ref_engine (NameStr "b") None None (Some 0%nat)
                       default_size gallery)))
         scene) = "b" /\
    calls w'' =
      calls (snd (figure ref_engine (NameStr "b") None None (Some 0%nat)
                    default_size gallery)) /\
    figs (heap w'') =
      figs (heap (snd (figure ref_engine (NameStr "b") None None (Some 0%nat)
                         default_size gallery))).
Proof.
  apply (figure_again_does_not_create ref_engine (NameStr "b") "b" None None
           default_size None None default_size 0%nat gallery 4%nat).
  - reflexivity.
  - vm_compute. reflexivity.
  - vm_compute. repeat constructor.
Defined.

Lemma gcf_twice_returns_the_same_witness :
  gcf ref_engine (Some 0%nat)
    (snd (gcf ref_engine (Some 0%nat) initial_world)) =
  (Ok 0%nat, snd (gcf ref_engine (Some 0%nat) initial_world)).
Proof.
  apply (gcf_twice_returns_the_same ref_engine 0%nat initial_world).
  vm_compute. reflexivity.
Defined.

Lemma draw_and_savefig_default_to_current_scene_witness :
  exists e w0 fig l,
    resolve_engine ref_engine None gallery = (Ok e, w0) /\
    eng_current_scene
      (the_engine (heap (snd (draw ref_engine None gallery))) e) = Some fig /\
    calls (snd (draw ref_engine None gallery)) = l ++ [call_render fig].
Proof.
  apply (proj1 (draw_and_savefig_default_to_current_scene ref_engine "out.png"
                  None [] gallery (snd (draw ref_engine None gallery)))).
  vm_compute. reflexivity.
Defined.

Lemma clf_lets_other_errors_through_witness :
  clf failing_engine None gallery =
  (Raise (EngineError 1), log call_get_engine gallery).
Proof.
  apply (clf_lets_other_errors_through failing_engine None gallery).
  - vm_compute. reflexivity.
  - discriminate.
Defined.

Lemma savefig_no_scene_witness :
  savefig ref_engine "out.png" None (Some 2%nat) [] gallery =
  (Raise AttributeError, gallery).
Proof.
  apply (savefig_no_scene ref_engine "out.png" None (Some 2%nat) [] gallery 2%nat
           gallery).
  - reflexivity.
  - intros s. vm_compute. discriminate.
Defined.
